(** * Uptime monitor (src/monitor.py): state-transition and alerting engine

    A shallow embedding of [src/monitor.py]: the per-URL entry record, the
    transition applied in the body of the loop of [main] (lines 99-118), the
    state file loader [load_state], the snapshot written by [save_state] and
    the run of [main] with its exit status. *)

From Stdlib Require Import ZArith List String Ascii Bool Lia.
Import ListNotations.
Open Scope Z_scope.
Open Scope string_scope.
Set Warnings "-register-all".

(** ** Strings *)

(** A string from its UTF-8 byte values (the source's alert texts carry
    emoji, which are several bytes each). *)
Fixpoint utf8 (bs : list nat) : string :=
  match bs with
  | [] => EmptyString
  | b :: bs' => String (ascii_of_nat b) (utf8 bs')
  end.

(** U+2705 WHITE HEAVY CHECK MARK. *)
Definition check_mark : string := utf8 [226; 156; 133]%nat.
(** U+26A0 WARNING SIGN followed by U+FE0F. *)
Definition warning_sign : string := utf8 [226; 154; 160; 239; 184; 143]%nat.
Definition newline : string := String (ascii_of_nat 10) EmptyString.

(** ["\n".join(xs)] *)
Fixpoint join_lines (xs : list string) : string :=
  match xs with
  | [] => ""
  | [x] => x
  | x :: xs' => x ++ newline ++ join_lines xs'
  end.

(** ** Settings (lines 17-18) *)

Record config := {
  FAILURE_THRESHOLD : Z;
  REMIND_MIN : Z
}.

(** [FAILURE_THRESHOLD = max(1, int(...))]; [REMIND_MIN = int(...)] is not
    clamped. *)
Definition mk_config (threshold remind : Z) : config :=
  {| FAILURE_THRESHOLD := Z.max 1 threshold; REMIND_MIN := remind |}.

(** ** Entries (lines 72-79) *)

Inductive status := Up | Down.

Definition status_eqb (a b : status) : bool :=
  match a, b with
  | Up, Up | Down, Down => true
  | _, _ => false
  end.

Record entry := {
  e_status : status;          (* "status" *)
  e_fail : Z;                 (* "fail": consecutive failures *)
  e_ok : Z;                   (* "ok": consecutive successes *)
  e_last_change : Z;          (* "last_change" *)
  e_last_down_alert : Z       (* "last_down_alert" *)
}.

Definition empty_entry : entry :=
  {| e_status := Up; e_fail := 0; e_ok := 0;
     e_last_change := 0; e_last_down_alert := 0 |}.

(** Field updates, as the assignments [entry["..."] = v]. *)
Definition set_status (e : entry) (s : status) : entry :=
  {| e_status := s; e_fail := e_fail e; e_ok := e_ok e;
     e_last_change := e_last_change e; e_last_down_alert := e_last_down_alert e |}.
Definition set_fail (e : entry) (n : Z) : entry :=
  {| e_status := e_status e; e_fail := n; e_ok := e_ok e;
     e_last_change := e_last_change e; e_last_down_alert := e_last_down_alert e |}.
Definition set_ok (e : entry) (n : Z) : entry :=
  {| e_status := e_status e; e_fail := e_fail e; e_ok := n;
     e_last_change := e_last_change e; e_last_down_alert := e_last_down_alert e |}.
Definition set_last_change (e : entry) (t : Z) : entry :=
  {| e_status := e_status e; e_fail := e_fail e; e_ok := e_ok e;
     e_last_change := t; e_last_down_alert := e_last_down_alert e |}.
Definition set_last_down_alert (e : entry) (t : Z) : entry :=
  {| e_status := e_status e; e_fail := e_fail e; e_ok := e_ok e;
     e_last_change := e_last_change e; e_last_down_alert := t |}.

(** ** The transition (lines 99-118) *)

(** The alert a step appends: to [down_alerts] (a DOWN alert or a reminder)
    or to [recover_alerts]. *)
Inductive alert :=
| Down_alert (text : string)
| Reminder (text : string)
| Recovery (text : string).

Definition is_down_alert (a : option alert) : bool :=
  match a with Some (Down_alert _) => true | _ => false end.
Definition is_reminder (a : option alert) : bool :=
  match a with Some (Reminder _) => true | _ => false end.
Definition is_recovery (a : option alert) : bool :=
  match a with Some (Recovery _) => true | _ => false end.
Definition alert_text (a : alert) : string :=
  match a with Down_alert t | Reminder t | Recovery t => t end.

(** One iteration of the loop body for URL [u], probe result [(ok, msg)]
    and the run's clock [now]. *)
Definition step (cfg : config) (u : string) (e : entry) (ok : bool) (msg : string)
    (now : Z) : entry * option alert :=
  if ok then
    let e := set_fail (set_ok e (e_ok e + 1)) 0 in
    match e_status e with
    | Down =>
        (set_last_change (set_status e Up) now,
         Some (Recovery (u ++ " recovered " ++ check_mark)))
    | Up => (e, None)
    end
  else
    let e := set_ok (set_fail e (e_fail e + 1)) 0 in
    match e_status e with
    | Up =>
        if Z.leb (FAILURE_THRESHOLD cfg) (e_fail e) then
          (set_last_down_alert (set_last_change (set_status e Down) now) now,
           Some (Down_alert msg))
        else (e, None)
    | Down =>
        if Z.ltb 0 (REMIND_MIN cfg) && Z.leb (REMIND_MIN cfg * 60) (now - e_last_down_alert e)
        then (set_last_down_alert e now, Some (Reminder (msg ++ " (still down)")))
        else (e, None)
    end.

(** Successive probes of one URL across runs: each probe is
    [(ok, msg, now)]; the result lists the entry and alert after each. *)
Fixpoint trace (cfg : config) (u : string) (e : entry)
    (ps : list (bool * string * Z)) : list (entry * option alert) :=
  match ps with
  | [] => []
  | (ok, msg, now) :: ps' =>
      let '(e', a) := step cfg u e ok msg now in
      (e', a) :: trace cfg u e' ps'
  end.

Definition count_down_alerts (tr : list (entry * option alert)) : nat :=
  List.length (filter (fun p => is_down_alert (snd p)) tr).
Definition count_reminders (tr : list (entry * option alert)) : nat :=
  List.length (filter (fun p => is_reminder (snd p)) tr).

Definition failed_probe (p : bool * string * Z) : Prop := fst (fst p) = false.

(** Counters as the data model has them: non-negative. *)
Definition entry_wf (e : entry) : Prop := 0 <= e_fail e /\ 0 <= e_ok e.

(** ** JSON values and the state file (lines 55-70) *)

(** JSON as [json.load] returns it (numbers are integers here). *)
Inductive json :=
| JNull
| JBool (b : bool)
| JNum (n : Z)
| JStr (s : string)
| JArr (l : list json)
| JObj (kv : list (string * json)).

(** [d.get(k)] on a dict built by [json.load]: a repeated key keeps its last
    value. *)
Fixpoint obj_get (kv : list (string * json)) (k : string) : option json :=
  match kv with
  | [] => None
  | (k', v) :: kv' =>
      match obj_get kv' k with
      | Some w => Some w
      | None => if String.eqb k k' then Some v else None
      end
  end.

(** What [open(STATE_FILE)] followed by [json.load] meets. *)
Inductive state_file :=
| File_absent                 (* FileNotFoundError *)
| File_unreadable             (* any other OSError or a decoding error *)
| File_malformed              (* json.JSONDecodeError *)
| File_json (j : json).

Inductive py_exc :=
| FileNotFoundError
| OSError
| JSONDecodeError
| AttributeError.

Inductive result (A : Type) :=
| Ret (a : A)
| Raise (x : py_exc).
Arguments Ret {A} a.
Arguments Raise {A} x.

(** The body of the [try] in [load_state]: [data.get] raises
    AttributeError when the file holds a JSON value that is not an object. *)
Definition load_state_body (SCHEMA_VERSION : string) (f : state_file) : result json :=
  match f with
  | File_absent => Raise FileNotFoundError
  | File_unreadable => Raise OSError
  | File_malformed => Raise JSONDecodeError
  | File_json (JObj kv) =>
      match obj_get kv "_schema" with
      | Some (JStr s) =>
          if String.eqb s SCHEMA_VERSION then
            Ret (match obj_get kv "urls" with Some j => j | None => JObj [] end)
          else Ret (JObj [])
      | _ => Ret (JObj [])
      end
  | File_json _ => Raise AttributeError
  end.

(** [load_state]: [except Exception: return {}]. *)
Definition load_state (SCHEMA_VERSION : string) (f : state_file) : json :=
  match load_state_body SCHEMA_VERSION f with
  | Ret j => j
  | Raise _ => JObj []
  end.

Definition status_json (s : status) : json :=
  match s with Up => JStr "up" | Down => JStr "down" end.

(** An entry as [json.dump] writes it, keys in [empty_entry]'s order. *)
Definition entry_json (e : entry) : json :=
  JObj [("status", status_json (e_status e)); ("fail", JNum (e_fail e));
        ("ok", JNum (e_ok e)); ("last_change", JNum (e_last_change e));
        ("last_down_alert", JNum (e_last_down_alert e))].

Definition urls_json (curr : list (string * entry)) : json :=
  JObj (map (fun p => (fst p, entry_json (snd p))) curr).

(** [save_state]: the payload written to the state file. *)
Definition save_state (SCHEMA_VERSION : string) (saved_at : Z)
    (curr : list (string * entry)) : state_file :=
  File_json (JObj [("_schema", JStr SCHEMA_VERSION); ("saved_at", JNum saved_at);
                   ("urls", urls_json curr)]).

(** A loaded entry of exactly the shape [save_state] writes. Entries of any
    other shape are outside this model. *)
Definition entry_of_json (j : json) : option entry :=
  match j with
  | JObj [("status", JStr s); ("fail", JNum f); ("ok", JNum o);
          ("last_change", JNum lc); ("last_down_alert", JNum lda)] =>
      let mk st := Some {| e_status := st; e_fail := f; e_ok := o;
                           e_last_change := lc; e_last_down_alert := lda |} in
      if String.eqb s "up" then mk Up
      else if String.eqb s "down" then mk Down
      else None
  | _ => None
  end.

(** ** Dicts keyed by URL *)

(** [d.get(u)] *)
Fixpoint dict_get (d : list (string * entry)) (u : string) : option entry :=
  match d with
  | [] => None
  | (k, e) :: d' => if String.eqb u k then Some e else dict_get d' u
  end.

(** [d[u] = e]: an existing key keeps its position, a new one goes last. *)
Fixpoint dict_set (d : list (string * entry)) (u : string) (e : entry)
    : list (string * entry) :=
  match d with
  | [] => [(u, e)]
  | (k, e0) :: d' => if String.eqb u k then (k, e) :: d' else (k, e0) :: dict_set d' u e
  end.

(** The loaded mapping as the loop of [main] reads it: [prev.get(u, ...)]
    raises AttributeError on a value that is not a dict. Only the entries of
    configured URLs are read. *)
Inductive loaded_prev :=
| Prev (m : list (string * entry))
| Prev_not_dict
| Prev_unmodelled.

Fixpoint prev_entries (kv : list (string * json)) (urls : list string)
    (acc : list (string * entry)) : option (list (string * entry)) :=
  match urls with
  | [] => Some acc
  | u :: us =>
      match obj_get kv u with
      | None => prev_entries kv us acc
      | Some j =>
          match entry_of_json j with
          | Some e => prev_entries kv us (dict_set acc u e)
          | None => None
          end
      end
  end.

Definition prev_of_json (urls : list string) (loaded : json) : loaded_prev :=
  match loaded with
  | JObj kv =>
      match prev_entries kv urls [] with
      | Some m => Prev m
      | None => Prev_unmodelled
      end
  | _ => Prev_not_dict
  end.

(** ** The run of [main] (lines 82-133) *)

(** The probe results of one run: [check_url] at the [i]-th iteration of the
    loop, for URL [u], answers [check i u = (ok, msg)]. *)
Definition prober := nat -> string -> bool * string.

Definition add_down (downs : list string) (a : option alert) : list string :=
  match a with
  | Some (Down_alert t) | Some (Reminder t) => downs ++ [t]
  | _ => downs
  end.
Definition add_recovery (recs : list string) (a : option alert) : list string :=
  match a with Some (Recovery t) => recs ++ [t] | _ => recs end.

(** The [for u in URLS] loop. [prev.get(u, empty_entry())] returns the very
    dict held by [prev] when [u] is there: mutating it and storing it in
    [curr] updates both, which a URL listed twice observes. *)
Fixpoint run_loop (cfg : config) (now : Z) (check : prober) (i : nat)
    (us : list string) (prev curr : list (string * entry))
    (downs recs : list string)
    : list (string * entry) * list string * list string :=
  match us with
  | [] => (curr, downs, recs)
  | u :: us' =>
      let '(ok, msg) := check i u in
      match dict_get prev u with
      | Some e =>
          let '(e', a) := step cfg u e ok msg now in
          run_loop cfg now check (S i) us' (dict_set prev u e') (dict_set curr u e')
            (add_down downs a) (add_recovery recs a)
      | None =>
          let '(e', a) := step cfg u empty_entry ok msg now in
          run_loop cfg now check (S i) us' prev (dict_set curr u e')
            (add_down downs a) (add_recovery recs a)
      end
  end.

(** The calls to [notify_callmebot] (lines 123-126). *)
Definition notifications (downs recs : list string) : list string :=
  (match downs with
   | [] => []
   | _ => [warning_sign ++ " Uptime alert:" ++ newline ++ join_lines downs]
   end) ++
  (match recs with
   | [] => []
   | _ => [check_mark ++ " Recovery:" ++ newline ++ join_lines recs]
   end).

Record outcome := {
  probed : list string;                      (* URLs passed to check_url *)
  sent : list string;                        (* texts passed to notify_callmebot *)
  saved : option (list (string * entry));    (* the mapping given to save_state *)
  exit_code : Z
}.

Inductive run_result :=
| Finished (o : outcome)
| Raised (x : py_exc)
| Unmodelled.

Definition any_down (curr : list (string * entry)) : bool :=
  existsb (fun p => status_eqb (e_status (snd p)) Down) curr.

(** [main], given the configured [URLS] and the mapping [load_state]
    returned. The exit status of a run that does not raise: [SystemExit(2)],
    [SystemExit(1)], or 0 when [main] returns. *)
Definition main (cfg : config) (URLS : list string) (loaded : json)
    (check : prober) (now : Z) : run_result :=
  match URLS with
  | [] => Finished {| probed := []; sent := []; saved := None; exit_code := 2 |}
  | _ =>
      match prev_of_json URLS loaded with
      | Prev_not_dict => Raised AttributeError
      | Prev_unmodelled => Unmodelled
      | Prev prev =>
          let '(curr, downs, recs) := run_loop cfg now check 0 URLS prev [] [] [] in
          Finished {| probed := URLS; sent := notifications downs recs;
                      saved := Some curr;
                      exit_code := if any_down curr then 1 else 0 |}
      end
  end.

(** A run that starts from the state file [f]. *)
Definition main_from_file (cfg : config) (SCHEMA_VERSION : string)
    (URLS : list string) (f : state_file) (check : prober) (now : Z) : run_result :=
  main cfg URLS (load_state SCHEMA_VERSION f) check now.

(** The state file a finished run leaves: [save_state] at time [saved_at],
    or the previous file when nothing was saved. *)
Definition file_after (SCHEMA_VERSION : string) (saved_at : Z) (f : state_file)
    (r : run_result) : state_file :=
  match r with
  | Finished {| saved := Some curr |} => save_state SCHEMA_VERSION saved_at curr
  | _ => f
  end.

(** The [urls] part of a run's snapshot. *)
Definition saved_urls (r : run_result) : option json :=
  match r with
  | Finished {| saved := Some curr |} => Some (urls_json curr)
  | _ => None
  end.

(** ** Reading a run back *)

(** The entry the loop starts from for [u]: [prev.get(u, empty_entry())]. *)
Definition base (prev : list (string * entry)) (u : string) : entry :=
  match dict_get prev u with Some e => e | None => empty_entry end.

(** What the loop stores in [curr] when the URLs [us] are distinct, the
    [j]-th of them being probed at iteration [i + j]. *)
Fixpoint curr_of_distinct (cfg : config) (now : Z) (check : prober) (i : nat)
    (us : list string) (prev : list (string * entry)) : list (string * entry) :=
  match us with
  | [] => []
  | u :: us' =>
      (u, fst (step cfg u (base prev u) (fst (check i u)) (snd (check i u)) now))
        :: curr_of_distinct cfg now check (S i) us' prev
  end.

(** The entry a loaded mapping holds for [u], when it holds one. *)
Definition loaded_entry (loaded : json) (u : string) : option entry :=
  match loaded with
  | JObj kv => match obj_get kv u with Some j => entry_of_json j | None => None end
  | _ => None
  end.

(** The state-file conditions under which [load_state] starts afresh: no
    file, an unreadable one, malformed JSON, a JSON value that is not an
    object, or an object whose ["_schema"] is not the configured version. *)
Definition state_reset (SCHEMA_VERSION : string) (f : state_file) : Prop :=
  f = File_absent \/ f = File_unreadable \/ f = File_malformed \/
  exists j, f = File_json j /\
    forall kv, j = JObj kv -> obj_get kv "_schema" <> Some (JStr SCHEMA_VERSION).

(** A prober under which every URL answers 200. *)
Definition all_ok : prober := fun _ u => (true, u ++ " OK (200)").

(** The iterations, counted from [i], at which [u] is probed in [us]. *)
Fixpoint occurrences (u : string) (i : nat) (us : list string) : list nat :=
  match us with
  | [] => []
  | v :: us' =>
      if String.eqb u v then i :: occurrences u (S i) us' else occurrences u (S i) us'
  end.

(** The entry the probe of [u] at iteration [j] leaves, starting from [e]. *)
Definition step_at (cfg : config) (now : Z) (check : prober) (u : string) (e : entry)
    (j : nat) : entry :=
  fst (step cfg u e (fst (check j u)) (snd (check j u)) now).

(** The alerts the loop produces when the URLs [us] are distinct, the
    [j]-th of them being probed at iteration [i + j]. *)
Fixpoint alerts_of_distinct (cfg : config) (now : Z) (check : prober) (i : nat)
    (us : list string) (prev : list (string * entry)) : list (option alert) :=
  match us with
  | [] => []
  | u :: us' =>
      snd (step cfg u (base prev u) (fst (check i u)) (snd (check i u)) now)
        :: alerts_of_distinct cfg now check (S i) us' prev
  end.

(** The texts of the DOWN alerts and reminders, and of the recoveries. *)
Definition down_texts (al : list (option alert)) : list string :=
  flat_map (fun a => match a with
                     | Some (Down_alert t) | Some (Reminder t) => [t]
                     | _ => []
                     end) al.
Definition recovery_texts (al : list (option alert)) : list string :=
  flat_map (fun a => match a with Some (Recovery t) => [t] | _ => [] end) al.

(** ** Parsing [URLS] (line 5) *)

(** [os.getenv] returns a [str]: here a list of Unicode code points. *)
Definition code_points := list Z.

(** [str.isspace] on one code point. *)
Definition py_isspace (c : Z) : bool :=
  existsb (Z.eqb c)
    [9; 10; 11; 12; 13; 28; 29; 30; 31; 32; 133; 160; 5760;
     8192; 8193; 8194; 8195; 8196; 8197; 8198; 8199; 8200; 8201; 8202;
     8232; 8233; 8239; 8287; 12288].

Definition comma : Z := 44.

(** [s.split(",")]: every comma separates, so there is one more piece than
    there are commas. *)
Fixpoint split_commas (s : code_points) : list code_points :=
  match s with
  | [] => [[]]
  | c :: s' =>
      if Z.eqb c comma then [] :: split_commas s'
      else match split_commas s' with
           | w :: ws => (c :: w) :: ws
           | [] => [[c]]
           end
  end.

Fixpoint drop_spaces (s : code_points) : code_points :=
  match s with
  | c :: s' => if py_isspace c then drop_spaces s' else s
  | [] => []
  end.

(** [s.strip()] *)
Definition py_strip (s : code_points) : code_points :=
  rev (drop_spaces (rev (drop_spaces s))).

Definition nonempty {A} (l : list A) : bool :=
  match l with [] => false | _ => true end.

(** [[u.strip() for u in env.split(",") if u.strip()]] *)
Definition parse_urls (env : code_points) : list code_points :=
  filter nonempty (map py_strip (split_commas env)).

(** [",".join(us)] *)
Fixpoint join_commas (us : list code_points) : code_points :=
  match us with
  | [] => []
  | [u] => u
  | u :: us' => (u ++ [comma] ++ join_commas us')%list
  end.

(** ** [check_url] (lines 27-40) *)

Definition digit (n : Z) : string := String (ascii_of_nat (48 + Z.to_nat n)) EmptyString.

Fixpoint dec_digits (fuel : nat) (n : Z) : string :=
  match fuel with
  | O => ""
  | S f => if Z.ltb n 10 then digit n else dec_digits f (n / 10) ++ digit (n mod 10)
  end.

(** [str(n)] for an int. *)
Definition py_str_int (n : Z) : string :=
  if Z.ltb n 0 then "-" ++ dec_digits (S (Z.to_nat (- n))) (- n)
  else dec_digits (S (Z.to_nat n)) n.

(** The outcome of [re.search(EXPECT, r.text, re.I | re.M)]. *)
Inductive search_result :=
| Found
| Not_found
| Regex_error (err : string).     (* re.error on an invalid pattern *)

(** What [requests.get] does: a response with its status code and what the
    search of [EXPECT] in its body gives, or an exception with its text. *)
Inductive http_outcome :=
| Response (status_code : Z) (search : search_result)
| Request_error (err : string).

(** [check_url u], for the stripped [EXPECT]: the [try] catches a request
    error and an error of the pattern alike. *)
Definition check_url (EXPECT : string) (u : string) (r : http_outcome) : bool * string :=
  match r with
  | Request_error err => (false, u ++ " error: " ++ err)
  | Response code sr =>
      if Z.leb 400 code then (false, u ++ " returned " ++ py_str_int code)
      else if String.eqb EXPECT "" then (true, u ++ " OK (" ++ py_str_int code ++ ")")
      else match sr with
           | Found => (true, u ++ " OK (" ++ py_str_int code ++ ")")
           | Not_found => (false, u ++ " missing expected content")
           | Regex_error err => (false, u ++ " error: " ++ err)
           end
  end.

(** ** [notify_callmebot] (lines 42-53) *)

Definition is_unreserved (n : nat) : bool :=
  ((65 <=? n) && (n <=? 90))%nat || ((97 <=? n) && (n <=? 122))%nat ||
  ((48 <=? n) && (n <=? 57))%nat ||
  (n =? 95)%nat || (n =? 46)%nat || (n =? 45)%nat || (n =? 126)%nat.

Definition hex_digit (n : nat) : ascii :=
  if (n <? 10)%nat then ascii_of_nat (48 + n) else ascii_of_nat (55 + n).

(** [quote_plus] on the UTF-8 bytes of a text, with [safe=""]: unreserved
    bytes stay, a space becomes "+", any other byte becomes "%XX". *)
Fixpoint quote_plus (s : string) : string :=
  match s with
  | EmptyString => EmptyString
  | String c s' =>
      let n := nat_of_ascii c in
      if is_unreserved n then String c (quote_plus s')
      else if (n =? 32)%nat then String "+" (quote_plus s')
      else String "%" (String (hex_digit (n / 16)) (String (hex_digit (n mod 16)) (quote_plus s')))
  end.

(** [urllib.parse.urlencode(params)] for string keys and values. *)
Fixpoint urlencode (params : list (string * string)) : string :=
  match params with
  | [] => ""
  | [(k, v)] => quote_plus k ++ "=" ++ quote_plus v
  | (k, v) :: ps => quote_plus k ++ "=" ++ quote_plus v ++ "&" ++ urlencode ps
  end.

(** The request [notify_callmebot] sends, if any: none without both the
    phone number and the API key. Its response is only logged. *)
Definition notify_callmebot (CALLMEBOT_PHONE CALLMEBOT_APIKEY text : string)
    : option string :=
  if String.eqb CALLMEBOT_PHONE "" || String.eqb CALLMEBOT_APIKEY "" then None
  else Some ("https://api.callmebot.com/whatsapp.php?" ++
             urlencode [("phone", CALLMEBOT_PHONE); ("text", text);
                        ("apikey", CALLMEBOT_APIKEY)]).

(** Decoding of a form-encoded value, to state what [quote_plus] keeps. *)
Definition hex_value (c : ascii) : nat :=
  let n := nat_of_ascii c in if (n <? 58)%nat then n - 48 else n - 55.

Fixpoint unquote_plus (fuel : nat) (s : string) : string :=
  match fuel with
  | O => s
  | S f =>
      match s with
      | String "+" s' => String " " (unquote_plus f s')
      | String "%" (String h (String l s')) =>
          String (ascii_of_nat (16 * hex_value h + hex_value l)) (unquote_plus f s')
      | String c s' => String c (unquote_plus f s')
      | EmptyString => EmptyString
      end
  end.

(** A character that cannot end a form field or the query: not "&",
    "=", "#" or a space. *)
Definition url_safe (d : ascii) : bool :=
  negb (Ascii.eqb d "&") && negb (Ascii.eqb d "=") && negb (Ascii.eqb d "#") &&
  negb (Ascii.eqb d " ").

(** ** Probe histories *)

(** The entry after a probe history, oldest probe first. *)
Definition after_probes (cfg : config) (u : string) (e : entry)
    (ps : list (bool * string * Z)) : entry :=
  fold_left (fun e p => fst (step cfg u e (fst (fst p)) (snd (fst p)) (snd p))) ps e.

(** The number of leading probes with outcome [ok]. *)
Fixpoint leading (ok : bool) (ps : list (bool * string * Z)) : Z :=
  match ps with
  | [] => 0
  | p :: ps' => if Bool.eqb (fst (fst p)) ok then 1 + leading ok ps' else 0
  end.

(** The number of probes with outcome [ok] at the end of a history. *)
Definition trailing (ok : bool) (ps : list (bool * string * Z)) : Z := leading ok (rev ps).

Definition has_outcome (ok : bool) (ps : list (bool * string * Z)) : bool :=
  existsb (fun p => Bool.eqb (fst (fst p)) ok) ps.

(** * Properties of the transition *)

Ltac unfold_entry :=
  unfold set_fail, set_ok, set_status, set_last_change, set_last_down_alert in *;
  simpl in *.

Ltac step_cases e :=
  unfold step; destruct e as [[|] ?f ?o ?lc ?lda]; unfold_entry;
  repeat match goal with
         | |- context [if ?b then _ else _] => let Hb := fresh "Hb" in destruct b eqn:Hb
         end;
  simpl in *.

Lemma step_failed_down_stays (cfg : config) (u : string) (e : entry) (msg : string)
    (now : Z) :
  e_status e = Down ->
  e_status (fst (step cfg u e false msg now)) = Down /\
  is_down_alert (snd (step cfg u e false msg now)) = false.
Proof.
  intros Hs; unfold step; destruct e as [st f o lc lda]; simpl in Hs; subst st;
    unfold_entry.
  destruct (Z.ltb 0 (REMIND_MIN cfg) && Z.leb (REMIND_MIN cfg * 60) (now - lda));
    simpl; auto.
Qed.

Lemma step_failed_up (cfg : config) (u : string) (e : entry) (msg : string) (now : Z) :
  e_status e = Up ->
  step cfg u e false msg now =
  if Z.leb (FAILURE_THRESHOLD cfg) (e_fail e + 1) then
    ({| e_status := Down; e_fail := e_fail e + 1; e_ok := 0;
        e_last_change := now; e_last_down_alert := now |}, Some (Down_alert msg))
  else
    ({| e_status := Up; e_fail := e_fail e + 1; e_ok := 0;
        e_last_change := e_last_change e; e_last_down_alert := e_last_down_alert e |},
     None).
Proof.
  intros Hs; unfold step; destruct e as [st f o lc lda]; simpl in Hs; subst st;
    unfold_entry; reflexivity.
Qed.

(** C2 (amended). A successful probe of a DOWN entry sets its status to UP
    and its last change to [now], and emits one RECOVERY alert whose text is
    the URL followed by " recovered " and a check mark, whatever the
    failure count was. *)
Theorem recovery_on_first_success (cfg : config) (u : string) (e : entry)
    (msg : string) (now : Z) :
  e_status e = Down ->
  step cfg u e true msg now =
  ({| e_status := Up; e_fail := 0; e_ok := e_ok e + 1;
      e_last_change := now; e_last_down_alert := e_last_down_alert e |},
   Some (Recovery (u ++ " recovered " ++ check_mark))).
Proof.
  intros Hs; unfold step; destruct e as [st f o lc lda]; simpl in Hs; subst st;
    unfold_entry; reflexivity.
Qed.

Lemma recovery_on_first_success_witness :
  e_status {| e_status := Down; e_fail := 7; e_ok := 0;
              e_last_change := 10; e_last_down_alert := 10 |} = Down /\
  step (mk_config 3 10) "http://a" {| e_status := Down; e_fail := 7; e_ok := 0;
              e_last_change := 10; e_last_down_alert := 10 |} true "http://a OK (200)" 99 =
  ({| e_status := Up; e_fail := 0; e_ok := 0 + 1;
      e_last_change := 99; e_last_down_alert := 10 |},
   Some (Recovery ("http://a" ++ " recovered " ++ check_mark))).
Proof.
  split; [reflexivity | apply recovery_on_first_success; reflexivity].
Defined.

(** C2, as stated, is refuted: the RECOVERY text is not "<url> recovered"
    (the source appends a check mark). *)
Lemma recovery_text_counterexample :
  snd (step (mk_config 1 10) "http://a"
         {| e_status := Down; e_fail := 1; e_ok := 0;
            e_last_change := 5; e_last_down_alert := 5 |} true "http://a OK (200)" 60)
  <> Some (Recovery ("http://a" ++ " recovered")).
Proof.
  vm_compute; intros H; inversion H.
Qed.

(** The reminder decision of one step on a DOWN entry. *)
Lemma reminder_step (cfg : config) (u : string) (e : entry) (msg : string)
    (now : Z) :
  e_status e = Down ->
  let '(e', a) := step cfg u e false msg now in
  (is_reminder a = true <->
     0 < REMIND_MIN cfg /\ REMIND_MIN cfg * 60 <= now - e_last_down_alert e) /\
  (0 < REMIND_MIN cfg /\ REMIND_MIN cfg * 60 <= now - e_last_down_alert e ->
     a = Some (Reminder (msg ++ " (still down)")) /\ e_last_down_alert e' = now) /\
  (~ (0 < REMIND_MIN cfg /\ REMIND_MIN cfg * 60 <= now - e_last_down_alert e) ->
     a = None /\ e_last_down_alert e' = e_last_down_alert e).
Proof.
  intros Hs; unfold step; destruct e as [st f o lc lda]; simpl in Hs; subst st;
    unfold_entry.
  destruct (Z.ltb 0 (REMIND_MIN cfg)) eqn:H1;
    destruct (Z.leb (REMIND_MIN cfg * 60) (now - lda)) eqn:H2; simpl;
    rewrite ?Z.ltb_lt, ?Z.ltb_ge, ?Z.leb_le, ?Z.leb_gt in *;
    repeat split; intros; try tauto; try lia; try discriminate.
Qed.

Lemma step_no_reminder_when_disabled (cfg : config) (u : string) (e : entry)
    (ok : bool) (msg : string) (now : Z) :
  REMIND_MIN cfg <= 0 -> is_reminder (snd (step cfg u e ok msg now)) = false.
Proof.
  intros Hr; unfold step; destruct ok, e as [[|] f o lc lda]; unfold_entry;
    try reflexivity.
  - destruct (Z.leb (FAILURE_THRESHOLD cfg) (f + 1)); reflexivity.
  - replace (Z.ltb 0 (REMIND_MIN cfg)) with false by (symmetry; apply Z.ltb_ge; lia).
    reflexivity.
Qed.

Lemma trace_no_reminder_when_disabled (cfg : config) (u : string) ps :
  REMIND_MIN cfg <= 0 ->
  forall e, count_reminders (trace cfg u e ps) = 0%nat.
Proof.
  intros Hr; induction ps as [|[[ok msg] now] ps IH]; intros e; [reflexivity|].
  simpl. pose proof (step_no_reminder_when_disabled cfg u e ok msg now Hr) as H.
  destruct (step cfg u e ok msg now) as [e' a] eqn:Hst; simpl in H |- *.
  unfold count_reminders in *; simpl; rewrite H; apply IH.
Qed.

Lemma trace_down_stays (cfg : config) (u : string) ps :
  Forall failed_probe ps ->
  forall e, e_status e = Down ->
  Forall (fun p => e_status (fst p) = Down /\ is_down_alert (snd p) = false)
    (trace cfg u e ps).
Proof.
  induction 1 as [|[[ok msg] now] ps Hp Hps IH]; intros e Hs; simpl; [constructor|].
  unfold failed_probe in Hp; simpl in Hp; subst ok.
  pose proof (step_failed_down_stays cfg u e msg now Hs) as [H1 H2].
  destruct (step cfg u e false msg now) as [e' a]; simpl in *.
  constructor; auto.
Qed.

Lemma count_down_alerts_cons (p : entry * option alert) tr :
  count_down_alerts (p :: tr) =
  ((if is_down_alert (snd p) then 1 else 0) + count_down_alerts tr)%nat.
Proof. unfold count_down_alerts; simpl; destruct (is_down_alert (snd p)); reflexivity. Qed.

Lemma count_down_alerts_none tr :
  Forall (fun p => e_status (fst p) = Down /\ is_down_alert (snd p) = false) tr ->
  count_down_alerts tr = 0%nat.
Proof.
  induction 1 as [|p tr [_ Hp] _ IH]; [reflexivity|].
  rewrite count_down_alerts_cons, Hp; exact IH.
Qed.

(** While UP with [fail] below the threshold, failed probes emit the DOWN
    alert exactly at the probe that brings [fail] to the threshold. *)
Lemma trace_up_phase (cfg : config) (u : string) ps :
  Forall failed_probe ps ->
  forall e, e_status e = Up -> 0 <= e_fail e < FAILURE_THRESHOLD cfg ->
  count_down_alerts (trace cfg u e ps) =
    (if Z.leb (FAILURE_THRESHOLD cfg) (e_fail e + Z.of_nat (List.length ps)) then 1 else 0)%nat /\
  forall i e' a, nth_error (trace cfg u e ps) i = Some (e', a) ->
    (is_down_alert a = true <-> e_fail e + Z.of_nat (S i) = FAILURE_THRESHOLD cfg) /\
    (e_status e' = Down <-> FAILURE_THRESHOLD cfg <= e_fail e + Z.of_nat (S i)) /\
    (e_fail e + Z.of_nat (S i) = FAILURE_THRESHOLD cfg ->
       exists msg t, nth_error ps i = Some (false, msg, t) /\
         a = Some (Down_alert msg) /\ e_last_change e' = t /\ e_last_down_alert e' = t).
Proof.
  induction 1 as [|[[ok msg] now] ps Hp Hps IH]; intros e Hs Hf.
  - split.
    + simpl. replace (Z.leb (FAILURE_THRESHOLD cfg) (e_fail e + 0)) with false
        by (symmetry; apply Z.leb_gt; lia). reflexivity.
    + intros [|i] e' a H; discriminate H.
  - unfold failed_probe in Hp; simpl in Hp; subst ok.
    cbn [trace]. rewrite (step_failed_up cfg u e msg now Hs).
    destruct (Z.leb (FAILURE_THRESHOLD cfg) (e_fail e + 1)) eqn:Hk.
    + apply Z.leb_le in Hk.
      assert (Hd := trace_down_stays cfg u ps Hps
        {| e_status := Down; e_fail := e_fail e + 1; e_ok := 0;
           e_last_change := now; e_last_down_alert := now |} eq_refl).
      split.
      * rewrite count_down_alerts_cons, count_down_alerts_none by exact Hd.
        simpl List.length. replace (Z.leb (FAILURE_THRESHOLD cfg) (e_fail e + Z.of_nat (S (List.length ps))))
          with true by (symmetry; apply Z.leb_le; lia). reflexivity.
      * intros [|i] e' a H.
        -- simpl in H; injection H as <- <-; simpl.
           split; [split; intros; first [reflexivity | discriminate | lia]|].
           split; [split; intros; first [reflexivity | discriminate | lia]|].
           intros _; exists msg, now; auto.
        -- simpl in H. apply nth_error_In in H.
           rewrite Forall_forall in Hd. destruct (Hd _ H) as [Hs' Ha]; simpl in *.
           rewrite Ha, Hs'.
           split; [split; intros; first [reflexivity | discriminate | lia]|].
           split; [split; intros; first [reflexivity | discriminate | lia]|].
           intros; lia.
    + apply Z.leb_gt in Hk.
      destruct (IH {| e_status := Up; e_fail := e_fail e + 1; e_ok := 0;
                      e_last_change := e_last_change e;
                      e_last_down_alert := e_last_down_alert e |} eq_refl)
        as [IHc IHi]; [simpl; lia|]; simpl in IHc, IHi.
      split.
      * rewrite count_down_alerts_cons; simpl; rewrite IHc.
        replace (e_fail e + 1 + Z.of_nat (List.length ps))
          with (e_fail e + Z.of_nat (S (List.length ps))) by lia. reflexivity.
      * intros [|i] e' a H.
        -- simpl in H; injection H as <- <-; simpl.
           split; [split; intros; first [reflexivity | discriminate | lia]|].
           split; [split; intros; first [reflexivity | discriminate | lia]|].
           intros; lia.
        -- simpl in H. destruct (IHi i e' a H) as (H1 & H2 & H3).
           replace (e_fail e + Z.of_nat (S (S i))) with (e_fail e + 1 + Z.of_nat (S i)) by lia.
           split; [exact H1|]. split; [exact H2|].
           intros Heq; destruct (H3 Heq) as (m & t & Hn & Ha & Hlc & Hlda).
           exists m, t; simpl; auto.
Qed.

(** C1. With [FAILURE_THRESHOLD = k >= 1], an UP entry with no failures
    that receives failed probes emits one DOWN alert in all, on the k-th
    failure (none before, none after while DOWN), carrying that probe's
    message; the status is DOWN from the k-th failure on, and at that probe
    [last_change] and [last_down_alert] are both set to its [now]. *)
Theorem threshold_down_alert (cfg : config) (u : string) (e : entry)
    (ps : list (bool * string * Z)) :
  1 <= FAILURE_THRESHOLD cfg -> e_status e = Up -> e_fail e = 0 ->
  Forall failed_probe ps ->
  count_down_alerts (trace cfg u e ps) =
    (if Z.leb (FAILURE_THRESHOLD cfg) (Z.of_nat (List.length ps)) then 1 else 0)%nat /\
  forall i e' a, nth_error (trace cfg u e ps) i = Some (e', a) ->
    (is_down_alert a = true <-> Z.of_nat (S i) = FAILURE_THRESHOLD cfg) /\
    (e_status e' = Down <-> FAILURE_THRESHOLD cfg <= Z.of_nat (S i)) /\
    (Z.of_nat (S i) = FAILURE_THRESHOLD cfg ->
       exists msg t, nth_error ps i = Some (false, msg, t) /\
         a = Some (Down_alert msg) /\ e_last_change e' = t /\ e_last_down_alert e' = t).
Proof.
  intros Hk Hs Hf Hps.
  destruct (trace_up_phase cfg u ps Hps e Hs ltac:(lia)) as [Hc Hi].
  rewrite Hf in Hc, Hi. split; [exact Hc|].
  intros i e' a H; exact (Hi i e' a H).
Qed.

Definition three_failures : list (bool * string * Z) :=
  [(false, "http://a returned 503", 100); (false, "http://a returned 503", 400);
   (false, "http://a returned 503", 700)].

Lemma threshold_down_alert_witness :
  count_down_alerts (trace (mk_config 3 10) "http://a" empty_entry three_failures) =
    (if Z.leb (FAILURE_THRESHOLD (mk_config 3 10))
          (Z.of_nat (List.length three_failures)) then 1 else 0)%nat.
Proof.
  refine (proj1 (threshold_down_alert (mk_config 3 10) "http://a" empty_entry
                   three_failures _ _ _ _)).
  - vm_compute; congruence.
  - reflexivity.
  - reflexivity.
  - repeat constructor.
Defined.

(** C3. On a failed probe of a DOWN entry, a REMINDER with text
    [msg ++ " (still down)"] is emitted and [last_down_alert] set to [now]
    exactly when [REMIND_MIN > 0] and [now - last_down_alert >= REMIND_MIN * 60];
    otherwise no alert is emitted and [last_down_alert] is kept. In
    particular, with [REMIND_MIN = 0] a run of failed probes from an UP entry
    with no failures emits no REMINDER at all, and still its one DOWN alert
    once the threshold is reached. *)
Theorem reminder_iff_due (cfg : config) (u : string) (e : entry) (msg : string)
    (now : Z) :
  e_status e = Down ->
  (let '(e', a) := step cfg u e false msg now in
   (is_reminder a = true <->
      0 < REMIND_MIN cfg /\ REMIND_MIN cfg * 60 <= now - e_last_down_alert e) /\
   (0 < REMIND_MIN cfg /\ REMIND_MIN cfg * 60 <= now - e_last_down_alert e ->
      a = Some (Reminder (msg ++ " (still down)")) /\ e_last_down_alert e' = now) /\
   (~ (0 < REMIND_MIN cfg /\ REMIND_MIN cfg * 60 <= now - e_last_down_alert e) ->
      a = None /\ e_last_down_alert e' = e_last_down_alert e)) /\
  (REMIND_MIN cfg = 0 -> 1 <= FAILURE_THRESHOLD cfg ->
   forall e0 ps, e_status e0 = Up -> e_fail e0 = 0 -> Forall failed_probe ps ->
   count_reminders (trace cfg u e0 ps) = 0%nat /\
   count_down_alerts (trace cfg u e0 ps) =
     (if Z.leb (FAILURE_THRESHOLD cfg) (Z.of_nat (List.length ps)) then 1 else 0)%nat).
Proof.
  intros Hs; split; [exact (reminder_step cfg u e msg now Hs)|].
  intros Hr Hk e0 ps Hs0 Hf0 Hps; split.
  - apply trace_no_reminder_when_disabled; lia.
  - destruct (trace_up_phase cfg u ps Hps e0 Hs0 ltac:(lia)) as [Hc _].
    rewrite Hf0 in Hc; exact Hc.
Qed.

Lemma reminder_iff_due_witness :
  let e := {| e_status := Down; e_fail := 4; e_ok := 0;
              e_last_change := 0; e_last_down_alert := 0 |} in
  let '(e', a) := step (mk_config 3 10) "http://a" e false "http://a returned 503" 660 in
  is_reminder a = true <->
    0 < REMIND_MIN (mk_config 3 10) /\
    REMIND_MIN (mk_config 3 10) * 60 <= 660 - e_last_down_alert e.
Proof.
  exact (proj1 (proj1 (reminder_iff_due (mk_config 3 10) "http://a"
    {| e_status := Down; e_fail := 4; e_ok := 0;
       e_last_change := 0; e_last_down_alert := 0 |}
    "http://a returned 503" 660 eq_refl))).
Defined.

(** C4. After one step from an entry whose counters are non-negative,
    exactly one of [fail] and [ok] is nonzero (positive) and the other is
    zero; both are zero only in [empty_entry], before any step. *)
Theorem counters_exclusive_after_step (cfg : config) (u : string) (e : entry)
    (ok : bool) (msg : string) (now : Z) :
  entry_wf e ->
  (let e' := fst (step cfg u e ok msg now) in
   (e_fail e' = 0 /\ 0 < e_ok e') \/ (e_ok e' = 0 /\ 0 < e_fail e')) /\
  e_fail empty_entry = 0 /\ e_ok empty_entry = 0.
Proof.
  intros [Hf Ho]; split; [|split; reflexivity].
  unfold step; destruct ok, e as [[|] f o lc lda]; unfold_entry;
    try destruct (Z.leb (FAILURE_THRESHOLD cfg) (f + 1));
    try destruct (Z.ltb 0 (REMIND_MIN cfg) && Z.leb (REMIND_MIN cfg * 60) (now - lda));
    simpl; lia.
Qed.

Lemma counters_exclusive_after_step_witness :
  (let e' := fst (step (mk_config 1 10) "http://a" empty_entry false "http://a error" 5) in
   (e_fail e' = 0 /\ 0 < e_ok e') \/ (e_ok e' = 0 /\ 0 < e_fail e')) /\
  e_fail empty_entry = 0 /\ e_ok empty_entry = 0.
Proof.
  apply counters_exclusive_after_step; unfold entry_wf; simpl; lia.
Defined.

(** C5. A step changes [last_change] only when the status changes, and
    [last_down_alert] only when it emits a DOWN alert or a REMINDER. *)
Theorem timestamps_frame (cfg : config) (u : string) (e : entry) (ok : bool)
    (msg : string) (now : Z) :
  let '(e', a) := step cfg u e ok msg now in
  (e_status e' = e_status e -> e_last_change e' = e_last_change e) /\
  (e_last_change e' <> e_last_change e -> e_status e' <> e_status e) /\
  (is_down_alert a = false -> is_reminder a = false ->
     e_last_down_alert e' = e_last_down_alert e) /\
  (e_last_down_alert e' <> e_last_down_alert e ->
     is_down_alert a = true \/ is_reminder a = true).
Proof.
  unfold step; destruct ok, e as [[|] f o lc lda]; unfold_entry;
    try destruct (Z.leb (FAILURE_THRESHOLD cfg) (f + 1));
    try destruct (Z.ltb 0 (REMIND_MIN cfg) && Z.leb (REMIND_MIN cfg * 60) (now - lda));
    simpl; repeat split; intros; auto; try discriminate; try congruence.
Qed.

(** C10. With [REMIND_MIN > 0], a failed probe of a DOWN entry at a [now]
    earlier than its [last_down_alert] emits no alert and keeps
    [last_down_alert]. *)
Theorem no_reminder_when_clock_behind (cfg : config) (u : string) (e : entry)
    (msg : string) (now : Z) :
  e_status e = Down -> 0 < REMIND_MIN cfg -> now < e_last_down_alert e ->
  snd (step cfg u e false msg now) = None /\
  e_last_down_alert (fst (step cfg u e false msg now)) = e_last_down_alert e.
Proof.
  intros Hs Hr Ht; unfold step; destruct e as [st f o lc lda]; simpl in *; subst st;
    unfold_entry.
  replace (Z.leb (REMIND_MIN cfg * 60) (now - lda)) with false
    by (symmetry; apply Z.leb_gt; lia).
  rewrite andb_false_r; simpl; auto.
Qed.

Lemma no_reminder_when_clock_behind_witness :
  snd (step (mk_config 1 10) "http://a"
         {| e_status := Down; e_fail := 2; e_ok := 0;
            e_last_change := 1000; e_last_down_alert := 1000 |}
         false "http://a error" 400) = None /\
  e_last_down_alert (fst (step (mk_config 1 10) "http://a"
         {| e_status := Down; e_fail := 2; e_ok := 0;
            e_last_change := 1000; e_last_down_alert := 1000 |}
         false "http://a error" 400)) = 1000.
Proof.
  apply no_reminder_when_clock_behind; simpl; [reflexivity | lia | lia].
Defined.

(** * Dicts keyed by URL *)

Lemma dict_get_set_eq d u e : dict_get (dict_set d u e) u = Some e.
Proof.
  induction d as [|[k e0] d IH]; simpl; [rewrite String.eqb_refl; reflexivity|].
  destruct (String.eqb u k) eqn:H; simpl; rewrite H; [reflexivity | exact IH].
Qed.

Lemma dict_get_set_neq d u v e : u <> v -> dict_get (dict_set d u e) v = dict_get d v.
Proof.
  intros Huv; induction d as [|[k e0] d IH]; simpl.
  - destruct (String.eqb v u) eqn:H; [apply String.eqb_eq in H; congruence | reflexivity].
  - destruct (String.eqb u k) eqn:H; simpl.
    + apply String.eqb_eq in H; subst k.
      destruct (String.eqb v u) eqn:H'; [apply String.eqb_eq in H'; congruence | reflexivity].
    + destruct (String.eqb v k); [reflexivity | exact IH].
Qed.

Lemma dict_get_none_iff d u : dict_get d u = None <-> ~ In u (map fst d).
Proof.
  induction d as [|[k e0] d IH]; simpl; [tauto|].
  destruct (String.eqb u k) eqn:H.
  - apply String.eqb_eq in H; subst; split; [discriminate | tauto].
  - apply String.eqb_neq in H. rewrite IH. split; intros Hn; [intros [->|Hi]|]; tauto.
Qed.

Lemma dict_get_some_in d u e : dict_get d u = Some e -> In (u, e) d.
Proof.
  induction d as [|[k e0] d IH]; simpl; [discriminate|].
  destruct (String.eqb u k) eqn:H; intros Hg.
  - apply String.eqb_eq in H; injection Hg as <-; subst; left; reflexivity.
  - right; exact (IH Hg).
Qed.

Lemma dict_set_fresh d u e : dict_get d u = None -> dict_set d u e = (d ++ [(u, e)])%list.
Proof.
  induction d as [|[k e0] d IH]; simpl; [reflexivity|].
  destruct (String.eqb u k); [discriminate|]. intros H; rewrite (IH H); reflexivity.
Qed.

Lemma dict_set_keys d u e v : In v (map fst (dict_set d u e)) <-> v = u \/ In v (map fst d).
Proof.
  induction d as [|[k e0] d IH]; simpl; [firstorder congruence|].
  destruct (String.eqb u k) eqn:H; simpl.
  - apply String.eqb_eq in H; subst; firstorder congruence.
  - rewrite IH; firstorder congruence.
Qed.

Lemma dict_set_nodup d u e : NoDup (map fst d) -> NoDup (map fst (dict_set d u e)).
Proof.
  induction d as [|[k e0] d IH]; simpl; intros Hn; [constructor; [tauto | constructor]|].
  inversion Hn as [|? ? Hk Hn']; subst.
  destruct (String.eqb u k) eqn:H; simpl; constructor; auto.
  rewrite dict_set_keys; apply String.eqb_neq in H; intros [->|Hi]; tauto.
Qed.

Lemma any_down_iff d : any_down d = true <-> exists u e, In (u, e) d /\ e_status e = Down.
Proof.
  unfold any_down; rewrite existsb_exists; split.
  - intros [[u e] [Hi Hs]]; exists u, e; split; [exact Hi|].
    simpl in Hs; revert Hs; destruct (e_status e); simpl; intros H; [discriminate H | reflexivity].
  - intros (u & e & Hi & Hs); exists (u, e); split; [exact Hi|]; simpl; rewrite Hs; reflexivity.
Qed.

Lemma any_down_false d : any_down d = false -> forall u e, In (u, e) d -> e_status e = Up.
Proof.
  intros H u e Hi; destruct (e_status e) eqn:Hs; [reflexivity|].
  assert (any_down d = true) by (apply any_down_iff; eauto). congruence.
Qed.

(** * The loop of [main] *)

Lemma run_loop_keys cfg now check : forall us i prev curr downs recs v,
  In v (map fst (fst (fst (run_loop cfg now check i us prev curr downs recs)))) <->
  In v us \/ In v (map fst curr).
Proof.
  induction us as [|u us IH]; intros i prev curr downs recs v; simpl; [tauto|].
  destruct (check i u) as [ok msg].
  destruct (dict_get prev u) as [e|];
    [destruct (step cfg u e ok msg now) as [e' a] | destruct (step cfg u empty_entry ok msg now) as [e' a]];
    rewrite IH, dict_set_keys; intuition.
Qed.

Lemma run_loop_nodup cfg now check : forall us i prev curr downs recs,
  NoDup (map fst curr) ->
  NoDup (map fst (fst (fst (run_loop cfg now check i us prev curr downs recs)))).
Proof.
  induction us as [|u us IH]; intros i prev curr downs recs Hn; simpl; [exact Hn|].
  destruct (check i u) as [ok msg].
  destruct (dict_get prev u) as [e|];
    [destruct (step cfg u e ok msg now) as [e' a] | destruct (step cfg u empty_entry ok msg now) as [e' a]];
    apply IH, dict_set_nodup, Hn.
Qed.

Lemma curr_of_distinct_prev_irrel cfg now check : forall us i p1 p2,
  (forall v, In v us -> dict_get p1 v = dict_get p2 v) ->
  curr_of_distinct cfg now check i us p1 = curr_of_distinct cfg now check i us p2.
Proof.
  induction us as [|u us IH]; intros i p1 p2 H; simpl; [reflexivity|].
  unfold base; rewrite (H u (or_introl eq_refl)).
  f_equal; apply IH; intros v Hv; apply H; right; exact Hv.
Qed.

Lemma curr_of_distinct_keys cfg now check : forall us i prev,
  map fst (curr_of_distinct cfg now check i us prev) = us.
Proof.
  induction us as [|u us IH]; intros i prev; simpl; [reflexivity | rewrite IH; reflexivity].
Qed.

Lemma run_loop_distinct cfg now check : forall us i prev curr downs recs,
  NoDup us -> (forall v, In v us -> ~ In v (map fst curr)) ->
  fst (fst (run_loop cfg now check i us prev curr downs recs)) =
  (curr ++ curr_of_distinct cfg now check i us prev)%list.
Proof.
  induction us as [|u us IH]; intros i prev curr downs recs Hnd Hfr; cbn [run_loop];
    [simpl; rewrite app_nil_r; reflexivity|].
  inversion Hnd as [|? ? Hu Hnd']; subst.
  assert (Hc : dict_get curr u = None)
    by (apply dict_get_none_iff, Hfr; left; reflexivity).
  cbn [curr_of_distinct].
  destruct (check i u) as [ok msg] eqn:Hck; cbn [fst snd].
  unfold base at 1.
  destruct (dict_get prev u) as [e|] eqn:Hp.
  - destruct (step cfg u e ok msg now) as [e' a] eqn:Hs in |- * at 1.
    rewrite IH; [|exact Hnd'|].
    + rewrite dict_set_fresh by exact Hc. rewrite <- app_assoc; simpl. rewrite Hs; simpl.
      f_equal; f_equal. apply curr_of_distinct_prev_irrel.
      intros v Hv; apply dict_get_set_neq; intros ->; contradiction.
    + intros v Hv. rewrite dict_set_keys. intros [->|Hin]; [contradiction|].
      apply (Hfr v); [right; exact Hv | exact Hin].
  - destruct (step cfg u empty_entry ok msg now) as [e' a] eqn:Hs in |- * at 1.
    rewrite IH; [|exact Hnd'|].
    + rewrite dict_set_fresh by exact Hc. rewrite <- app_assoc; simpl. rewrite Hs; reflexivity.
    + intros v Hv. rewrite dict_set_keys. intros [->|Hin]; [contradiction|].
      apply (Hfr v); [right; exact Hv | exact Hin].
Qed.

Lemma dict_get_curr_of_distinct cfg now check : forall us i prev j u,
  NoDup us -> nth_error us j = Some u ->
  dict_get (curr_of_distinct cfg now check i us prev) u =
  Some (fst (step cfg u (base prev u) (fst (check (i + j)%nat u))
                (snd (check (i + j)%nat u)) now)).
Proof.
  induction us as [|u0 us IH]; intros i prev j u Hnd Hj; [destruct j; discriminate|].
  inversion Hnd as [|? ? Hu Hnd']; subst. simpl.
  destruct j as [|j]; simpl in Hj.
  - injection Hj as <-. rewrite String.eqb_refl, Nat.add_0_r; reflexivity.
  - assert (Hne : u <> u0) by (intros ->; apply Hu; eapply nth_error_In; exact Hj).
    apply String.eqb_neq in Hne; rewrite Hne.
    rewrite (IH (S i) prev j u Hnd' Hj).
    replace (i + S j)%nat with (S i + j)%nat by lia; reflexivity.
Qed.

(** * Loading and saving *)

Lemma prev_entries_spec kv : forall us acc m,
  prev_entries kv us acc = Some m ->
  forall u, dict_get m u =
    if existsb (String.eqb u) us then
      match obj_get kv u with Some j => entry_of_json j | None => dict_get acc u end
    else dict_get acc u.
Proof.
  induction us as [|u0 us IH]; intros acc m H u; simpl in H |- *;
    [injection H as <-; reflexivity|].
  destruct (obj_get kv u0) as [j|] eqn:Ho.
  - destruct (entry_of_json j) as [e|] eqn:Hj; [|discriminate].
    rewrite (IH _ _ H u).
    destruct (String.eqb u u0) eqn:E; simpl.
    + apply String.eqb_eq in E; subst u0. rewrite Ho, Hj, dict_get_set_eq.
      destruct (existsb (String.eqb u) us); reflexivity.
    + apply String.eqb_neq in E. rewrite dict_get_set_neq by congruence. reflexivity.
  - rewrite (IH _ _ H u).
    destruct (String.eqb u u0) eqn:E; simpl.
    + apply String.eqb_eq in E; subst u0. rewrite Ho.
      destruct (existsb (String.eqb u) us); reflexivity.
    + reflexivity.
Qed.

Lemma prev_entries_decodes kv : forall us acc m,
  prev_entries kv us acc = Some m ->
  forall u j, In u us -> obj_get kv u = Some j -> exists e, entry_of_json j = Some e.
Proof.
  induction us as [|u0 us IH]; intros acc m H u j Hin Ho; [destruct Hin|].
  simpl in H. destruct Hin as [<-|Hin].
  - rewrite Ho in H. destruct (entry_of_json j) as [e|]; [eauto | discriminate].
  - destruct (obj_get kv u0) as [j0|];
      [destruct (entry_of_json j0) as [e0|]; [|discriminate]|]; eapply IH; eauto.
Qed.

Lemma prev_entries_total kv : forall us acc,
  (forall u j, In u us -> obj_get kv u = Some j -> exists e, entry_of_json j = Some e) ->
  exists m, prev_entries kv us acc = Some m.
Proof.
  induction us as [|u0 us IH]; intros acc H; simpl; [eauto|].
  destruct (obj_get kv u0) as [j|] eqn:Ho.
  - destruct (H u0 j (or_introl eq_refl) Ho) as [e He]; rewrite He.
    apply IH; intros; eapply H; [right|]; eauto.
  - apply IH; intros; eapply H; [right|]; eauto.
Qed.

Lemma existsb_eqb_in u us : existsb (String.eqb u) us = true <-> In u us.
Proof.
  rewrite existsb_exists; split.
  - intros [v [Hv E]]; apply String.eqb_eq in E; subst; exact Hv.
  - intros Hu; exists u; split; [exact Hu | apply String.eqb_refl].
Qed.

Lemma entry_json_roundtrip e : entry_of_json (entry_json e) = Some e.
Proof. destruct e as [[|] f o lc lda]; reflexivity. Qed.

Lemma obj_get_urls_json d u :
  NoDup (map fst d) ->
  obj_get (map (fun p => (fst p, entry_json (snd p))) d) u = option_map entry_json (dict_get d u).
Proof.
  induction d as [|[k e] d IH]; intros Hn; simpl; [reflexivity|].
  inversion Hn as [|? ? Hk Hn']; subst. rewrite (IH Hn').
  destruct (String.eqb u k) eqn:E.
  - apply String.eqb_eq in E; subst k.
    assert (dict_get d u = None) as -> by (apply dict_get_none_iff; exact Hk).
    reflexivity.
  - destruct (dict_get d u); reflexivity.
Qed.

Lemma load_saved_state schema t curr :
  load_state schema (save_state schema t curr) = urls_json curr.
Proof.
  unfold load_state, load_state_body, save_state; simpl.
  rewrite String.eqb_refl; reflexivity.
Qed.

Lemma main_finished cfg URLS loaded check now o :
  main cfg URLS loaded check now = Finished o -> URLS <> [] ->
  exists prev, prev_of_json URLS loaded = Prev prev /\
  let '(curr, downs, recs) := run_loop cfg now check 0 URLS prev [] [] [] in
  o = {| probed := URLS; sent := notifications downs recs; saved := Some curr;
         exit_code := if any_down curr then 1 else 0 |}.
Proof.
  intros H Hne; unfold main in H. destruct URLS as [|u us]; [congruence|].
  destruct (prev_of_json (u :: us) loaded) as [prev| |]; try discriminate.
  exists prev; split; [reflexivity|].
  destruct (run_loop cfg now check 0 (u :: us) prev [] [] []) as [[curr downs] recs].
  injection H as <-; reflexivity.
Qed.

Lemma main_of_prev cfg URLS loaded check now prev :
  URLS <> [] -> prev_of_json URLS loaded = Prev prev ->
  main cfg URLS loaded check now =
  let '(curr, downs, recs) := run_loop cfg now check 0 URLS prev [] [] [] in
  Finished {| probed := URLS; sent := notifications downs recs; saved := Some curr;
              exit_code := if any_down curr then 1 else 0 |}.
Proof.
  intros Hne Hp; destruct URLS as [|u us]; [congruence|].
  unfold main; rewrite Hp; reflexivity.
Qed.

Lemma step_twice (cfg : config) (u : string) (e0 : entry) (ok : bool) (msg : string)
    (t1 t2 : Z) :
  let e1 := fst (step cfg u e0 ok msg t1) in
  let e2 := fst (step cfg u e1 ok msg t2) in
  if ok then e_fail e1 = 0 /\ e_fail e2 = 0 /\ e2 = set_ok e1 (e_ok e1 + 1)
  else e_ok e1 = 0 /\ e_ok e2 = 0 /\ e_fail e2 = e_fail e1 + 1.
Proof.
  unfold step; destruct ok, e0 as [[|] f o lc lda]; unfold_entry;
    repeat match goal with
           | |- context [if ?b then _ else _] => destruct b
           end; simpl; repeat split.
Qed.

(** C7. A run with no configured URL ends with exit status 2, probes
    nothing and saves nothing. Otherwise a run that completes saves an entry
    for each configured URL, and ends with exit status 1 when one of them is
    DOWN, and 0 when all of them are UP. *)
Theorem exit_status (cfg : config) (URLS : list string) (loaded : json)
    (check : prober) (now : Z) :
  (URLS = [] ->
   main cfg URLS loaded check now =
   Finished {| probed := []; sent := []; saved := None; exit_code := 2 |}) /\
  (forall o, main cfg URLS loaded check now = Finished o -> URLS <> [] ->
   exists curr, saved o = Some curr /\ probed o = URLS /\
     (forall u, In u (map fst curr) <-> In u URLS) /\
     (exit_code o = 0 \/ exit_code o = 1) /\
     (exit_code o = 1 <-> exists u e, In (u, e) curr /\ e_status e = Down) /\
     (exit_code o = 0 <-> forall u e, In (u, e) curr -> e_status e = Up)).
Proof.
  split; [intros ->; reflexivity|].
  intros o Hm Hne. destruct (main_finished cfg URLS loaded check now o Hm Hne)
    as [prev [_ Ho]].
  pose proof (run_loop_keys cfg now check URLS 0 prev [] [] []) as Hk.
  destruct (run_loop cfg now check 0 URLS prev [] [] []) as [[curr downs] recs].
  subst o; simpl in Hk |- *. exists curr.
  split; [reflexivity|]. split; [reflexivity|].
  split; [intros u; rewrite Hk; tauto|].
  destruct (any_down curr) eqn:Hd.
  - pose proof (proj1 (any_down_iff curr) Hd) as (u & e & Hi & Hs).
    split; [right; reflexivity|]. split; [split; [intros _; eauto | reflexivity]|].
    split; [intros H; discriminate H|]. intros Hall. rewrite (Hall u e Hi) in Hs; discriminate.
  - split; [left; reflexivity|].
    split; [split; [intros H; discriminate H|] |].
    + intros (u & e & Hi & Hs). rewrite (any_down_false curr Hd u e Hi) in Hs; discriminate.
    + split; [intros _; exact (any_down_false curr Hd) | reflexivity].
Qed.

Lemma finished_prev cfg URLS loaded check now o :
  main cfg URLS loaded check now = Finished o -> URLS <> [] ->
  exists kv prev, loaded = JObj kv /\ prev_entries kv URLS [] = Some prev /\
    saved o = Some (fst (fst (run_loop cfg now check 0 URLS prev [] [] []))).
Proof.
  intros Hm Hne. destruct (main_finished cfg URLS loaded check now o Hm Hne) as [prev [Hp Ho]].
  destruct loaded as [| | | | |kv]; try discriminate Hp.
  unfold prev_of_json in Hp. destruct (prev_entries kv URLS []) as [m|] eqn:He; [|discriminate].
  injection Hp as <-. exists kv, m. split; [reflexivity|]. split; [exact He|].
  destruct (run_loop cfg now check 0 URLS m [] [] []) as [[curr downs] recs]; subst o; reflexivity.
Qed.

Lemma base_of_loaded kv URLS prev u :
  prev_entries kv URLS [] = Some prev -> In u URLS ->
  base prev u = match loaded_entry (JObj kv) u with Some e => e | None => empty_entry end.
Proof.
  intros He Hu. unfold base, loaded_entry.
  rewrite (prev_entries_spec kv URLS [] prev He u).
  apply existsb_eqb_in in Hu; rewrite Hu. destruct (obj_get kv u); reflexivity.
Qed.

(** C9 (amended). After a run, the saved [urls] mapping holds exactly the
    configured URLs, each once; for a list of distinct URLs it holds them in
    order, each with one step applied to its loaded entry (or to
    [empty_entry] when it had none). A URL that is not configured has no
    entry in the saved state file: its stale entry is not kept, and a later
    run that lists it again starts it from [empty_entry]. *)
Theorem saved_snapshot_lifecycle (cfg : config) (SCHEMA_VERSION : string)
    (URLS : list string) (loaded : json) (check : prober) (now t : Z) (o : outcome) :
  main cfg URLS loaded check now = Finished o -> URLS <> [] ->
  exists curr, saved o = Some curr /\
    (forall u, In u (map fst curr) <-> In u URLS) /\ NoDup (map fst curr) /\
    (forall u, ~ In u URLS ->
       loaded_entry (load_state SCHEMA_VERSION (save_state SCHEMA_VERSION t curr)) u = None) /\
    (NoDup URLS -> map fst curr = URLS /\
       forall i u, nth_error URLS i = Some u ->
       dict_get curr u =
       Some (fst (step cfg u
                    (match loaded_entry loaded u with Some e => e | None => empty_entry end)
                    (fst (check i u)) (snd (check i u)) now))).
Proof.
  intros Hm Hne.
  destruct (finished_prev cfg URLS loaded check now o Hm Hne) as (kv & prev & -> & He & Hs).
  eexists; split; [exact Hs|].
  assert (Hk : forall u, In u (map fst (fst (fst (run_loop cfg now check 0 URLS prev [] [] []))))
                         <-> In u URLS)
    by (intros u; rewrite run_loop_keys; simpl; tauto).
  assert (Hnd : NoDup (map fst (fst (fst (run_loop cfg now check 0 URLS prev [] [] [])))))
    by (apply run_loop_nodup; constructor).
  split; [exact Hk|]. split; [exact Hnd|]. split.
  - intros u Hu. rewrite load_saved_state. unfold loaded_entry, urls_json.
    rewrite (obj_get_urls_json _ u Hnd).
    assert (dict_get (fst (fst (run_loop cfg now check 0 URLS prev [] [] []))) u = None)
      as -> by (apply dict_get_none_iff; rewrite Hk; exact Hu).
    reflexivity.
  - intros HndU. rewrite run_loop_distinct by (auto || (intros v _ Hv; destruct Hv)).
    simpl. split; [apply curr_of_distinct_keys|].
    intros i u Hi. rewrite (dict_get_curr_of_distinct cfg now check URLS 0 prev i u HndU Hi).
    rewrite (base_of_loaded kv URLS prev u He (nth_error_In _ _ Hi)). reflexivity.
Qed.

Lemma saved_snapshot_lifecycle_witness :
  (* "http://old" is a stale entry of the loaded state, "http://a" a loaded
     DOWN entry, and "http://c" a URL without one. *)
  exists curr,
    saved {| probed := ["http://a"; "http://c"];
           sent := [check_mark ++ " Recovery:" ++ newline ++
                    join_lines ["http://a recovered " ++ check_mark]];
           saved := Some
         [("http://a", {| e_status := Up; e_fail := 0; e_ok := 1;
                          e_last_change := 100; e_last_down_alert := 40 |});
          ("http://c", {| e_status := Up; e_fail := 0; e_ok := 1;
                          e_last_change := 0; e_last_down_alert := 0 |})];
           exit_code := 0 |} = Some curr /\
    (forall u, In u (map fst curr) <-> In u ["http://a"; "http://c"]) /\ NoDup (map fst curr) /\
    (forall u, ~ In u ["http://a"; "http://c"] ->
       loaded_entry (load_state "v2" (save_state "v2" 100 curr)) u = None) /\
    (NoDup ["http://a"; "http://c"] -> map fst curr = ["http://a"; "http://c"] /\
       forall i u, nth_error ["http://a"; "http://c"] i = Some u ->
       dict_get curr u =
       Some (fst (step (mk_config 1 10) u
                    (match loaded_entry
                (JObj [("http://old", entry_json {| e_status := Down; e_fail := 5; e_ok := 0;
                                             e_last_change := 10; e_last_down_alert := 10 |});
                 ("http://a", entry_json {| e_status := Down; e_fail := 3; e_ok := 0;
                                           e_last_change := 40; e_last_down_alert := 40 |})]) u
                     with Some e => e | None => empty_entry end)
                    (fst (all_ok i u)) (snd (all_ok i u)) 100))).
Proof.
  apply (saved_snapshot_lifecycle (mk_config 1 10) "v2" ["http://a"; "http://c"]
           (JObj [("http://old", entry_json {| e_status := Down; e_fail := 5; e_ok := 0;
                                             e_last_change := 10; e_last_down_alert := 10 |});
                 ("http://a", entry_json {| e_status := Down; e_fail := 3; e_ok := 0;
                                           e_last_change := 40; e_last_down_alert := 40 |})])
           all_ok 100 100).
  - vm_compute; reflexivity.
  - discriminate.
Defined.

(** C9, as stated, is refuted: the entry of a URL dropped from the
    configuration does not persist in the state; the run's snapshot no
    longer holds it. *)
Lemma stale_entry_dropped_counterexample :
  let f0 := save_state "v2" 50
              [("http://b", {| e_status := Down; e_fail := 3; e_ok := 0;
                               e_last_change := 40; e_last_down_alert := 40 |})] in
  let r := main_from_file (mk_config 1 10) "v2" ["http://a"] f0 all_ok 100 in
  loaded_entry (load_state "v2" f0) "http://b" <> None /\
  loaded_entry (load_state "v2" (file_after "v2" 100 f0 r)) "http://b" = None.
Proof.
  vm_compute; split; [discriminate | reflexivity].
Qed.

(** C8 (amended). Two runs in succession over distinct URLs, the second
    loading the snapshot the first saved, with identical probe outcomes, do
    not save identical [urls] content: the second snapshot lists the same
    URLs, and for each one the counter of its outcome is one higher than in
    the first snapshot ([ok] on success, [fail] on failure) while the other
    counter is 0 in both; a URL that succeeds both times differs in [ok]
    only. *)
Theorem successive_runs_advance_counters (cfg : config) (SCHEMA_VERSION : string)
    (URLS : list string) (loaded : json) (check : prober) (now1 now2 t1 : Z)
    (o1 : outcome) (curr1 : list (string * entry)) :
  NoDup URLS -> main cfg URLS loaded check now1 = Finished o1 -> saved o1 = Some curr1 ->
  exists o2 curr2,
    main_from_file cfg SCHEMA_VERSION URLS (save_state SCHEMA_VERSION t1 curr1) check now2
      = Finished o2 /\
    saved o2 = Some curr2 /\ map fst curr2 = map fst curr1 /\
    forall i u, nth_error URLS i = Some u ->
    exists e1 e2, dict_get curr1 u = Some e1 /\ dict_get curr2 u = Some e2 /\
      if fst (check i u) then e_fail e1 = 0 /\ e_fail e2 = 0 /\ e2 = set_ok e1 (e_ok e1 + 1)
      else e_ok e1 = 0 /\ e_ok e2 = 0 /\ e_fail e2 = e_fail e1 + 1.
Proof.
  intros HndU Hm Hs1.
  assert (Hne : URLS <> []) by (intros ->; injection Hm as <-; discriminate Hs1).
  destruct (finished_prev cfg URLS loaded check now1 o1 Hm Hne) as (kv & prev1 & -> & He1 & Hs).
  rewrite Hs1 in Hs; injection Hs as Hc1.
  rewrite run_loop_distinct in Hc1 by (auto || (intros v _ Hv; destruct Hv)).
  simpl in Hc1.
  assert (Hk1 : map fst curr1 = URLS) by (rewrite Hc1; apply curr_of_distinct_keys).
  assert (Hnd1 : NoDup (map fst curr1)) by (rewrite Hk1; exact HndU).
  set (kv1 := map (fun p => (fst p, entry_json (snd p))) curr1).
  assert (Hdec : forall u j, In u URLS -> obj_get kv1 u = Some j ->
                   exists e, entry_of_json j = Some e).
  { intros u j _ Hj. unfold kv1 in Hj; rewrite (obj_get_urls_json curr1 u Hnd1) in Hj.
    destruct (dict_get curr1 u) as [e|]; [|discriminate].
    injection Hj as <-. exists e; apply entry_json_roundtrip. }
  destruct (prev_entries_total kv1 URLS [] Hdec) as [prev2 He2].
  assert (Hp2 : prev_of_json URLS (urls_json curr1) = Prev prev2)
    by (unfold prev_of_json, urls_json; fold kv1; rewrite He2; reflexivity).
  unfold main_from_file; rewrite load_saved_state, (main_of_prev cfg URLS _ check now2 prev2 Hne Hp2).
  pose proof (run_loop_distinct cfg now2 check URLS 0 prev2 [] [] [] HndU
                ltac:(intros v _ Hv; destruct Hv)) as Hc2.
  destruct (run_loop cfg now2 check 0 URLS prev2 [] [] []) as [[curr2 downs] recs].
  simpl in Hc2.
  eexists _, curr2. split; [reflexivity|]. split; [reflexivity|].
  split; [rewrite Hc2, Hk1; apply curr_of_distinct_keys|].
  intros i u Hi.
  pose proof (dict_get_curr_of_distinct cfg now1 check URLS 0 prev1 i u HndU Hi) as G1.
  pose proof (dict_get_curr_of_distinct cfg now2 check URLS 0 prev2 i u HndU Hi) as G2.
  rewrite <- Hc1 in G1. rewrite <- Hc2 in G2. simpl in G1, G2.
  assert (Hb2 : base prev2 u =
                fst (step cfg u (base prev1 u) (fst (check i u)) (snd (check i u)) now1)).
  { unfold base. rewrite (prev_entries_spec kv1 URLS [] prev2 He2 u).
    rewrite (proj2 (existsb_eqb_in u URLS) (nth_error_In _ _ Hi)).
    unfold kv1; rewrite (obj_get_urls_json curr1 u Hnd1), G1; cbn [option_map].
    rewrite entry_json_roundtrip; reflexivity. }
  rewrite Hb2 in G2.
  eexists _, _; split; [exact G1|]; split; [exact G2|].
  apply step_twice.
Qed.

Lemma successive_runs_advance_counters_witness :
  exists o2 curr2,
    main_from_file (mk_config 1 10) "v2" ["http://a"]
      (save_state "v2" 100
         [("http://a", {| e_status := Up; e_fail := 0; e_ok := 1;
                          e_last_change := 0; e_last_down_alert := 0 |})]) all_ok 400
      = Finished o2 /\
    saved o2 = Some curr2 /\
    map fst curr2 = map fst [("http://a", {| e_status := Up; e_fail := 0; e_ok := 1;
                          e_last_change := 0; e_last_down_alert := 0 |})] /\
    forall i u, nth_error ["http://a"] i = Some u ->
    exists e1 e2,
      dict_get [("http://a", {| e_status := Up; e_fail := 0; e_ok := 1;
                                e_last_change := 0; e_last_down_alert := 0 |})] u = Some e1 /\
      dict_get curr2 u = Some e2 /\
      if fst (all_ok i u) then e_fail e1 = 0 /\ e_fail e2 = 0 /\ e2 = set_ok e1 (e_ok e1 + 1)
      else e_ok e1 = 0 /\ e_ok e2 = 0 /\ e_fail e2 = e_fail e1 + 1.
Proof.
  refine (successive_runs_advance_counters (mk_config 1 10) "v2" ["http://a"] (JObj [])
            all_ok 100 400 100
            {| probed := ["http://a"]; sent := [];
               saved := Some [("http://a", {| e_status := Up; e_fail := 0; e_ok := 1;
                                              e_last_change := 0; e_last_down_alert := 0 |})];
               exit_code := 0 |} _ _ _ _).
  - repeat constructor; simpl; tauto.
  - vm_compute; reflexivity.
  - reflexivity.
Defined.

(** C8, as stated, is refuted: a URL answering 200 in two successive runs
    is saved with [ok = 1], then with [ok = 2]. *)
Lemma successive_runs_differ_counterexample :
  let r1 := main (mk_config 1 10) ["http://a"] (JObj []) all_ok 100 in
  let r2 := main_from_file (mk_config 1 10) "v2" ["http://a"]
              (file_after "v2" 100 File_absent r1) all_ok 400 in
  saved_urls r1 <> saved_urls r2.
Proof.
  vm_compute; intros H; inversion H.
Qed.

(** C6. When the state file is absent, unreadable, malformed JSON, not a
    JSON object, or holds an object whose ["_schema"] differs from the
    configured version, [load_state] returns the empty mapping (every
    exception in it is caught) and the run is that of a first run. The
    claim that state errors are never fatal fails for one corrupt state:
    [load_state] returns the ["urls"] value of a file with the configured
    ["_schema"] unchecked, and when it is not a JSON object the loop's
    [prev.get] raises AttributeError in a run with a configured URL. *)
Theorem load_state_resets (cfg : config) (SCHEMA_VERSION : string)
    (URLS : list string) (check : prober) (now : Z) :
  (forall f x, load_state_body SCHEMA_VERSION f = Raise x ->
     load_state SCHEMA_VERSION f = JObj []) /\
  (forall f, state_reset SCHEMA_VERSION f ->
     load_state SCHEMA_VERSION f = JObj [] /\
     main_from_file cfg SCHEMA_VERSION URLS f check now =
     main_from_file cfg SCHEMA_VERSION URLS File_absent check now) /\
  (forall kv j, obj_get kv "_schema" = Some (JStr SCHEMA_VERSION) ->
     obj_get kv "urls" = Some j -> (forall kv', j <> JObj kv') -> URLS <> [] ->
     main_from_file cfg SCHEMA_VERSION URLS (File_json (JObj kv)) check now =
     Raised AttributeError).
Proof.
  assert (Hreset : forall f, state_reset SCHEMA_VERSION f ->
                     load_state SCHEMA_VERSION f = JObj []).
  { intros f [->|[->|[->|[j [-> Hj]]]]]; try reflexivity.
    unfold load_state, load_state_body.
    destruct j as [| | | | |kv]; try reflexivity.
    specialize (Hj kv eq_refl).
    destruct (obj_get kv "_schema") as [[| | |s| |]|]; try reflexivity.
    destruct (String.eqb s SCHEMA_VERSION) eqn:E; [|reflexivity].
    apply String.eqb_eq in E; subst; contradiction. }
  split; [intros f x H; unfold load_state; rewrite H; reflexivity|].
  split.
  - intros f Hf; split; [exact (Hreset f Hf)|].
    unfold main_from_file; rewrite (Hreset f Hf); reflexivity.
  - intros kv j Hs Hu Hj Hne.
    unfold main_from_file, load_state, load_state_body.
    rewrite Hs, String.eqb_refl, Hu.
    destruct URLS as [|u us]; [congruence|].
    unfold main, prev_of_json.
    destruct j as [| | | | |kv']; try reflexivity.
    exfalso; exact (Hj kv' eq_refl).
Qed.

(** C6 fails in the code: a state file with the configured schema whose
    ["urls"] is a JSON list makes the run raise AttributeError before
    [save_state], so the file is left as it was and the next run raises
    again. *)
Lemma corrupt_urls_fatal_counterexample :
  main_from_file (mk_config 1 10) "v2" ["http://a"]
    (File_json (JObj [("_schema", JStr "v2"); ("urls", JArr [])])) all_ok 100 =
  Raised AttributeError /\
  file_after "v2" 100 (File_json (JObj [("_schema", JStr "v2"); ("urls", JArr [])]))
    (main_from_file (mk_config 1 10) "v2" ["http://a"]
       (File_json (JObj [("_schema", JStr "v2"); ("urls", JArr [])])) all_ok 100) =
  File_json (JObj [("_schema", JStr "v2"); ("urls", JArr [])]).
Proof.
  vm_compute; split; reflexivity.
Qed.

(** * Parsing [URLS] *)

Lemma split_commas_nocomma u : ~ In comma u -> split_commas u = [u].
Proof.
  induction u as [|c u IH]; intros Hn; [reflexivity|]; simpl.
  destruct (Z.eqb c comma) eqn:E; [apply Z.eqb_eq in E; subst; exfalso; apply Hn; left; reflexivity|].
  rewrite IH by (intros H; apply Hn; right; exact H). reflexivity.
Qed.

Lemma split_commas_app u r : ~ In comma u ->
  split_commas (u ++ comma :: r)%list = u :: split_commas r.
Proof.
  induction u as [|c u IH]; intros Hn; simpl; [reflexivity|].
  destruct (Z.eqb c comma) eqn:E; [apply Z.eqb_eq in E; subst; exfalso; apply Hn; left; reflexivity|].
  rewrite IH by (intros H; apply Hn; right; exact H). reflexivity.
Qed.

Lemma split_join us : us <> [] -> Forall (fun u => ~ In comma u) us ->
  split_commas (join_commas us) = us.
Proof.
  induction us as [|u [|u2 us] IH]; intros Hne Hf; [congruence| |].
  - inversion Hf; subst; apply split_commas_nocomma; assumption.
  - inversion Hf as [|? ? Hu Hf']; subst.
    change (join_commas (u :: u2 :: us)) with (u ++ comma :: join_commas (u2 :: us))%list.
    rewrite split_commas_app by exact Hu.
    rewrite IH by (discriminate || exact Hf'). reflexivity.
Qed.

Lemma split_commas_pieces s : forall w c, In w (split_commas s) -> In c w -> In c s /\ c <> comma.
Proof.
  induction s as [|d s IH]; intros w c Hw Hc; simpl in Hw.
  - destruct Hw as [<-|[]]; destruct Hc.
  - destruct (Z.eqb d comma) eqn:E.
    + destruct Hw as [<-|Hw]; [destruct Hc|]. destruct (IH w c Hw Hc); split; [right|]; auto.
    + apply Z.eqb_neq in E. destruct (split_commas s) as [|w0 ws] eqn:Hs.
      * destruct Hw as [<-|[]]; destruct Hc as [<-|[]]; split; [left|]; auto.
      * destruct Hw as [<-|Hw].
        -- destruct Hc as [<-|Hc]; [split; [left|]; auto|].
           destruct (IH w0 c (or_introl eq_refl) Hc); split; [right|]; auto.
        -- destruct (IH w c (or_intror Hw) Hc); split; [right|]; auto.
Qed.

Lemma split_commas_covers s : forall c, In c s -> c <> comma ->
  exists w, In w (split_commas s) /\ In c w.
Proof.
  induction s as [|d s IH]; intros c Hc Hn; [destruct Hc|]. simpl.
  destruct (Z.eqb d comma) eqn:E.
  - apply Z.eqb_eq in E. destruct Hc as [<-|Hc]; [congruence|].
    destruct (IH c Hc Hn) as [w [Hw Hcw]]; exists w; split; [right|]; auto.
  - destruct (split_commas s) as [|w0 ws] eqn:Hs.
    + destruct Hc as [<-|Hc]; [exists [d]; simpl; auto|].
      destruct (IH c Hc Hn) as [w [[] _]].
    + destruct Hc as [<-|Hc]; [exists (d :: w0); simpl; auto|].
      destruct (IH c Hc Hn) as [w [[<-|Hw] Hcw]].
      * exists (d :: w0); simpl; auto.
      * exists w; simpl; auto.
Qed.

Lemma drop_spaces_suffix x : exists p, x = (p ++ drop_spaces x)%list.
Proof.
  induction x as [|c x IH]; simpl; [exists []; reflexivity|].
  destruct (py_isspace c); [destruct IH as [p Hp]; exists (c :: p); simpl; congruence|].
  exists []; reflexivity.
Qed.

Lemma drop_spaces_head x :
  drop_spaces x = [] \/ exists c t, drop_spaces x = c :: t /\ py_isspace c = false.
Proof.
  induction x as [|c x IH]; simpl; [left; reflexivity|].
  destruct (py_isspace c) eqn:E; [exact IH|]. right; eauto.
Qed.

Lemma drop_spaces_id x :
  (x = [] \/ exists c t, x = c :: t /\ py_isspace c = false) -> drop_spaces x = x.
Proof. intros [->|(c & t & -> & Hc)]; simpl; [reflexivity | rewrite Hc; reflexivity]. Qed.

Lemma drop_spaces_keeps x c : In c x -> py_isspace c = false -> In c (drop_spaces x).
Proof.
  induction x as [|d x IH]; intros Hc Hs; [destruct Hc|]; simpl.
  destruct (py_isspace d) eqn:E; [|exact Hc].
  destruct Hc as [<-|Hc]; [congruence | exact (IH Hc Hs)].
Qed.

Lemma drop_spaces_in x c : In c (drop_spaces x) -> In c x.
Proof.
  destruct (drop_spaces_suffix x) as [p Hp]; intros H; rewrite Hp; apply in_or_app; right; exact H.
Qed.

Lemma py_strip_idem x : py_strip (py_strip x) = py_strip x.
Proof.
  unfold py_strip.
  assert (Hz : drop_spaces (rev (drop_spaces (rev (drop_spaces x)))) =
               rev (drop_spaces (rev (drop_spaces x)))).
  { apply drop_spaces_id.
    destruct (drop_spaces_suffix (rev (drop_spaces x))) as [p Hp].
    destruct (rev (drop_spaces (rev (drop_spaces x)))) as [|c t] eqn:Hrz; [left; reflexivity|].
    right; exists c, t; split; [reflexivity|].
    assert (Hy : drop_spaces x = (c :: t ++ rev p)%list).
    { rewrite <- (rev_involutive (drop_spaces x)), Hp, rev_app_distr, Hrz. reflexivity. }
    destruct (drop_spaces_head x) as [H|(c' & t' & H & Hc')]; rewrite Hy in H;
      [discriminate | injection H as -> _; exact Hc']. }
  rewrite Hz, rev_involutive, (drop_spaces_id (drop_spaces (rev (drop_spaces x))));
    [reflexivity | apply drop_spaces_head].
Qed.

Lemma py_strip_in x c : In c (py_strip x) -> In c x.
Proof.
  unfold py_strip; intros H. apply in_rev, drop_spaces_in, in_rev, drop_spaces_in in H; exact H.
Qed.

Lemma py_strip_keeps x c : In c x -> py_isspace c = false -> In c (py_strip x).
Proof.
  intros H Hs; unfold py_strip. apply in_rev; rewrite rev_involutive.
  apply drop_spaces_keeps; [apply in_rev; rewrite rev_involutive|exact Hs].
  apply drop_spaces_keeps; assumption.
Qed.

Lemma py_strip_spaces x : Forall (fun c => py_isspace c = true) x -> py_strip x = [].
Proof.
  intros H; unfold py_strip.
  assert (drop_spaces x = []) as ->.
  { induction H as [|c x Hc _ IH]; simpl; [reflexivity | rewrite Hc; exact IH]. }
  reflexivity.
Qed.

(** Every URL [URLS] yields is non-empty, holds no comma, and has no
    leading or trailing whitespace. *)
Theorem parse_urls_clean (env : code_points) :
  forall u, In u (parse_urls env) -> u <> [] /\ ~ In comma u /\ py_strip u = u.
Proof.
  intros u Hu. unfold parse_urls in Hu. apply filter_In in Hu as [Hu Hne].
  apply in_map_iff in Hu as [w [<- Hw]].
  split; [destruct (py_strip w); [discriminate | congruence]|].
  split; [|apply py_strip_idem].
  intros Hc. apply py_strip_in in Hc. exact (proj2 (split_commas_pieces env w comma Hw Hc) eq_refl).
Qed.

Lemma parse_urls_clean_witness :
  In [97] (parse_urls [32; 97; 32; 44; 44; 98]) /\
  ([97] <> [] /\ ~ In comma [97] /\ py_strip [97] = [97]).
Proof.
  assert (H : In [97] (parse_urls [32; 97; 32; 44; 44; 98])) by (vm_compute; left; reflexivity).
  split; [exact H | apply (parse_urls_clean [32; 97; 32; 44; 44; 98] [97] H)].
Defined.

(** Joining clean URLs with commas and parsing gives them back. *)
Theorem parse_join_urls (us : list code_points) :
  Forall (fun u => u <> [] /\ ~ In comma u /\ py_strip u = u) us ->
  parse_urls (join_commas us) = us.
Proof.
  intros Hf. destruct us as [|u0 us0]; [reflexivity|].
  unfold parse_urls. rewrite split_join.
  - remember (u0 :: us0) as us; clear Hequs.
    induction Hf as [|u us [Hne [_ Hs]] _ IH]; [reflexivity|].
    simpl; rewrite Hs; destruct u; [congruence|]. simpl; f_equal; exact IH.
  - discriminate.
  - eapply Forall_impl; [|exact Hf]; simpl; tauto.
Qed.

Lemma parse_join_urls_witness :
  parse_urls (join_commas [[104; 116; 116; 112; 58; 47; 47; 97]; [104; 116; 116; 112; 58; 47; 47; 98]]) =
  [[104; 116; 116; 112; 58; 47; 47; 97]; [104; 116; 116; 112; 58; 47; 47; 98]].
Proof.
  apply parse_join_urls. repeat constructor; try discriminate; try reflexivity;
    simpl; intuition discriminate.
Defined.

(** [URLS] is empty (and the run exits with status 2) exactly when the
    variable holds nothing but commas and whitespace. *)
Theorem parse_urls_empty_iff (env : code_points) :
  parse_urls env = [] <-> Forall (fun c => c = comma \/ py_isspace c = true) env.
Proof.
  split.
  - intros H. apply Forall_forall. intros c Hc.
    destruct (Z.eq_dec c comma) as [->|Hn]; [left; reflexivity|].
    destruct (py_isspace c) eqn:Hs; [right; reflexivity|]. exfalso.
    destruct (split_commas_covers env c Hc Hn) as [w [Hw Hcw]].
    assert (Hin : In (py_strip w) (parse_urls env)).
    { unfold parse_urls. apply filter_In. split; [apply in_map; exact Hw|].
      pose proof (py_strip_keeps w c Hcw Hs) as Hk. destruct (py_strip w); [destruct Hk | reflexivity]. }
    rewrite H in Hin; destruct Hin.
  - intros H. unfold parse_urls.
    assert (Hall : forall w, In w (split_commas env) -> py_strip w = []).
    { intros w Hw. apply py_strip_spaces, Forall_forall. intros c Hc.
      destruct (split_commas_pieces env w c Hw Hc) as [Hce Hn].
      rewrite Forall_forall in H. destruct (H c Hce); [contradiction | assumption]. }
    induction (split_commas env) as [|w ws IH]; [reflexivity|]. simpl.
    rewrite (Hall w (or_introl eq_refl)); simpl. apply IH; intros; apply Hall; right; assumption.
Qed.

(** * Probing and notifying *)

(** [check_url] reports success exactly when a response arrived with a
    status below 400 and either [EXPECT] is empty or the pattern was found
    in the body; its message always starts with the URL. *)
Theorem check_url_ok_iff (EXPECT u : string) (r : http_outcome) :
  (exists rest, snd (check_url EXPECT u r) = u ++ rest) /\
  (fst (check_url EXPECT u r) = true <->
   exists code sr, r = Response code sr /\ code < 400 /\ (EXPECT = "" \/ sr = Found)).
Proof.
  destruct r as [code sr|err]; simpl.
  - destruct (Z.leb 400 code) eqn:Hc.
    + apply Z.leb_le in Hc. split; [eexists; reflexivity|].
      split; [discriminate|]. intros (c & s & H & Hl & _); injection H as <- <-; lia.
    + apply Z.leb_gt in Hc. destruct (String.eqb EXPECT "") eqn:He.
      * apply String.eqb_eq in He. split; [eexists; reflexivity|].
        split; [intros _; exists code, sr; auto | reflexivity].
      * apply String.eqb_neq in He.
        destruct sr as [| |err]; (split; [eexists; reflexivity|]).
        -- split; [intros _; exists code, Found; auto | reflexivity].
        -- split; [discriminate|]. intros (c & s & H & _ & [?|?]); [contradiction|].
           injection H as <- <-; discriminate.
        -- split; [discriminate|]. intros (c & s & H & _ & [?|?]); [contradiction|].
           injection H as <- <-; discriminate.
  - split; [eexists; reflexivity|]. split; [discriminate|].
    intros (c & s & H & _); discriminate.
Qed.

Lemma quote_plus_cons c s :
  quote_plus (String c s) = (quote_plus (String c EmptyString) ++ quote_plus s)%string.
Proof.
  simpl. destruct (is_unreserved (nat_of_ascii c)); [reflexivity|].
  destruct (nat_of_ascii c =? 32)%nat; reflexivity.
Qed.

Lemma quote_plus_char_safe c :
  forallb url_safe (list_ascii_of_string (quote_plus (String c EmptyString))) = true.
Proof. destruct c as [[] [] [] [] [] [] [] []]; reflexivity. Qed.

Lemma unquote_plus_char c f rest :
  unquote_plus (S f) (quote_plus (String c EmptyString) ++ rest) =
  String c (unquote_plus f rest).
Proof. destruct c as [[] [] [] [] [] [] [] []]; reflexivity. Qed.

Lemma list_ascii_of_string_app s1 s2 :
  list_ascii_of_string (s1 ++ s2) = (list_ascii_of_string s1 ++ list_ascii_of_string s2)%list.
Proof. induction s1; simpl; [reflexivity | rewrite IHs1; reflexivity]. Qed.

(** [notify_callmebot] sends nothing unless both the phone number and the
    API key are set. The text travels as [quote_plus text], which holds no
    "&", "=", "#" or space, so it cannot spill into another parameter, and
    decodes back to the text. *)
Theorem notify_callmebot_request (CALLMEBOT_PHONE CALLMEBOT_APIKEY text : string) :
  (notify_callmebot CALLMEBOT_PHONE CALLMEBOT_APIKEY text = None <->
   CALLMEBOT_PHONE = "" \/ CALLMEBOT_APIKEY = "") /\
  (CALLMEBOT_PHONE <> "" -> CALLMEBOT_APIKEY <> "" ->
   notify_callmebot CALLMEBOT_PHONE CALLMEBOT_APIKEY text =
   Some ("https://api.callmebot.com/whatsapp.php?phone=" ++ quote_plus CALLMEBOT_PHONE ++
         "&text=" ++ quote_plus text ++ "&apikey=" ++ quote_plus CALLMEBOT_APIKEY)) /\
  forallb url_safe (list_ascii_of_string (quote_plus text)) = true /\
  unquote_plus (String.length text) (quote_plus text) = text.
Proof.
  split; [|split; [|split]].
  - unfold notify_callmebot.
    destruct (String.eqb_spec CALLMEBOT_PHONE ""), (String.eqb_spec CALLMEBOT_APIKEY "");
      simpl; split; intros H; first [tauto | discriminate | reflexivity].
  - intros Hp Hk; unfold notify_callmebot.
    apply String.eqb_neq in Hp, Hk; rewrite Hp, Hk; reflexivity.
  - induction text as [|c s IH]; [reflexivity|].
    rewrite quote_plus_cons, list_ascii_of_string_app, forallb_app, quote_plus_char_safe, IH.
    reflexivity.
  - induction text as [|c s IH]; [reflexivity|].
    rewrite quote_plus_cons; simpl String.length. rewrite unquote_plus_char, IH; reflexivity.
Qed.

(** [FAILURE_THRESHOLD] is at least 1, so with a configured threshold of
    1 or less (0 or negative included) an UP entry goes DOWN with a DOWN
    alert on its first failed probe. *)
Theorem threshold_clamped_first_failure (threshold remind : Z) (u : string) (e : entry)
    (msg : string) (now : Z) :
  threshold <= 1 -> e_status e = Up -> 0 <= e_fail e ->
  1 <= FAILURE_THRESHOLD (mk_config threshold remind) /\
  step (mk_config threshold remind) u e false msg now =
  ({| e_status := Down; e_fail := e_fail e + 1; e_ok := 0;
      e_last_change := now; e_last_down_alert := now |}, Some (Down_alert msg)).
Proof.
  intros Ht Hs Hf. split; [simpl; lia|].
  rewrite step_failed_up by exact Hs.
  replace (Z.leb (FAILURE_THRESHOLD (mk_config threshold remind)) (e_fail e + 1)) with true
    by (symmetry; apply Z.leb_le; simpl; lia).
  reflexivity.
Qed.

Lemma threshold_clamped_first_failure_witness :
  1 <= FAILURE_THRESHOLD (mk_config 0 10) /\
  step (mk_config 0 10) "http://a" empty_entry false "http://a returned 500" 60 =
  ({| e_status := Down; e_fail := e_fail empty_entry + 1; e_ok := 0;
      e_last_change := 60; e_last_down_alert := 60 |},
   Some (Down_alert "http://a returned 500")).
Proof.
  apply threshold_clamped_first_failure; simpl; [lia | reflexivity | lia].
Defined.

(** * One step, one entry *)

Lemma step_counters cfg u e ok msg now :
  e_fail (fst (step cfg u e ok msg now)) = (if ok then 0 else e_fail e + 1) /\
  e_ok (fst (step cfg u e ok msg now)) = (if ok then e_ok e + 1 else 0).
Proof. destruct ok; step_cases e; split; reflexivity. Qed.

(** After a probe an entry is UP exactly when the probe succeeded, or it
    was UP and its new failure count is still below the threshold. The
    status changes exactly when a DOWN alert or a recovery is emitted; a
    recovery comes exactly from a successful probe of a DOWN entry, and a
    successful probe emits neither a DOWN alert nor a reminder. *)
Theorem step_status_alerts (cfg : config) (u : string) (e : entry) (ok : bool)
    (msg : string) (now : Z) :
  (e_status (fst (step cfg u e ok msg now)) = Up <->
   ok = true \/ (e_status e = Up /\ e_fail e + 1 < FAILURE_THRESHOLD cfg)) /\
  (e_status (fst (step cfg u e ok msg now)) <> e_status e <->
   is_down_alert (snd (step cfg u e ok msg now)) = true \/
   is_recovery (snd (step cfg u e ok msg now)) = true) /\
  (is_recovery (snd (step cfg u e ok msg now)) = true <-> ok = true /\ e_status e = Down) /\
  (ok = true -> is_down_alert (snd (step cfg u e ok msg now)) = false /\
                is_reminder (snd (step cfg u e ok msg now)) = false).
Proof.
  destruct ok; step_cases e;
    repeat match goal with
           | H : Z.leb _ _ = true |- _ => apply Z.leb_le in H
           | H : Z.leb _ _ = false |- _ => apply Z.leb_gt in H
           end;
    repeat split; intros; try tauto; try discriminate; try lia;
    repeat match goal with
           | H : _ \/ _ |- _ => destruct H
           | H : _ /\ _ |- _ => destruct H
           end; try discriminate; try lia; try tauto; try congruence.
Qed.

(** The counters after a history of probes: [fail] counts the trailing
    failures, [ok] the trailing successes; a counter keeps its old value
    added only while no probe of the other outcome has occurred. *)
Theorem after_probes_counters (cfg : config) (u : string) (e : entry)
    (ps : list (bool * string * Z)) :
  e_fail (after_probes cfg u e ps) =
    trailing false ps + (if has_outcome true ps then 0 else e_fail e) /\
  e_ok (after_probes cfg u e ps) =
    trailing true ps + (if has_outcome false ps then 0 else e_ok e).
Proof.
  induction ps as [|p ps IH] using rev_ind; [simpl; lia|].
  unfold after_probes in *; rewrite fold_left_app; cbn [fold_left].
  remember (fold_left _ ps e) as e0 eqn:He0; clear He0.
  destruct IH as [IHf IHo].
  destruct (step_counters cfg u e0 (fst (fst p)) (snd (fst p)) (snd p)) as [Hf Ho].
  rewrite Hf, Ho, IHf, IHo.
  unfold trailing, has_outcome; rewrite rev_app_distr, !existsb_app.
  destruct p as [[[|] m] t]; cbn [rev app leading fst snd existsb Bool.eqb orb];
    repeat match goal with |- context [existsb ?f ps] => destruct (existsb f ps) end;
    cbn [orb]; lia.
Qed.

(** * The state file *)

(** What [save_state] writes, [load_state] reads back entry by entry with
    the same schema version; under any other version it reads nothing. *)
Theorem save_load_roundtrip (SCHEMA_VERSION other : string) (saved_at : Z)
    (curr : list (string * entry)) :
  NoDup (map fst curr) ->
  (forall u, loaded_entry (load_state SCHEMA_VERSION (save_state SCHEMA_VERSION saved_at curr)) u
             = dict_get curr u) /\
  (other <> SCHEMA_VERSION ->
   load_state other (save_state SCHEMA_VERSION saved_at curr) = JObj []).
Proof.
  intros Hn; split.
  - intros u. rewrite load_saved_state. unfold loaded_entry, urls_json.
    rewrite (obj_get_urls_json curr u Hn).
    destruct (dict_get curr u) as [e|]; simpl; [apply entry_json_roundtrip | reflexivity].
  - intros Hne. unfold load_state, load_state_body, save_state; simpl.
    apply String.eqb_neq in Hne. rewrite String.eqb_sym, Hne. reflexivity.
Qed.

Lemma save_load_roundtrip_witness :
  NoDup (map fst [("http://a", empty_entry)]) /\
  ((forall u, loaded_entry (load_state "2" (save_state "2" 60 [("http://a", empty_entry)])) u
              = dict_get [("http://a", empty_entry)] u) /\
   ("1" <> "2" -> load_state "1" (save_state "2" 60 [("http://a", empty_entry)]) = JObj [])).
Proof.
  split; [repeat constructor; simpl; tauto|].
  apply save_load_roundtrip. repeat constructor; simpl; tauto.
Defined.

(** * Runs *)

Lemma run_loop_occurrences cfg now check u : forall us i prev curr downs recs,
  dict_get (fst (fst (run_loop cfg now check i us prev curr downs recs))) u =
  match occurrences u i us with
  | [] => dict_get curr u
  | js => Some (match dict_get prev u with
                | Some e => fold_left (step_at cfg now check u) js e
                | None => step_at cfg now check u empty_entry (last js 0%nat)
                end)
  end.
Proof.
  induction us as [|u0 us IH]; intros i prev curr downs recs; [reflexivity|].
  cbn [run_loop occurrences].
  destruct (check i u0) as [ok msg] eqn:Hck.
  destruct (String.eqb u u0) eqn:E.
  - apply String.eqb_eq in E; subst u0.
    destruct (dict_get prev u) as [e|] eqn:Hp.
    + destruct (step cfg u e ok msg now) as [e1 a] eqn:Hs.
      assert (Hsa : step_at cfg now check u e i = e1)
        by (unfold step_at; rewrite Hck; simpl; rewrite Hs; reflexivity).
      rewrite IH, !dict_get_set_eq.
      destruct (occurrences u (S i) us) as [|j js]; cbn [fold_left]; rewrite Hsa; reflexivity.
    + destruct (step cfg u empty_entry ok msg now) as [e1 a] eqn:Hs.
      assert (Hsa : step_at cfg now check u empty_entry i = e1)
        by (unfold step_at; rewrite Hck; simpl; rewrite Hs; reflexivity).
      rewrite IH, Hp, dict_get_set_eq.
      destruct (occurrences u (S i) us) as [|j js]; [rewrite <- Hsa; reflexivity|].
      reflexivity.
  - apply String.eqb_neq in E.
    assert (E' : u0 <> u) by congruence.
    destruct (dict_get prev u0) as [e|].
    + destruct (step cfg u0 e ok msg now) as [e1 a].
      rewrite IH, !(dict_get_set_neq _ _ _ _ E'). reflexivity.
    + destruct (step cfg u0 empty_entry ok msg now) as [e1 a].
      rewrite IH, (dict_get_set_neq _ _ _ _ E'). reflexivity.
Qed.

(** A URL listed more than once in [URLS], among any other URLs, is saved
    once. When the loaded state holds it, each of its probes steps the entry
    the previous one left, since [prev.get] hands out the stored dict; when
    it does not, every probe starts again from [empty_entry] and only the
    last one is saved. A URL not listed is not saved. *)
Theorem duplicate_url_aliasing (cfg : config) (now : Z) (check : prober)
    (URLS : list string) (prev : list (string * entry)) (u : string) :
  NoDup (map fst (fst (fst (run_loop cfg now check 0 URLS prev [] [] [])))) /\
  dict_get (fst (fst (run_loop cfg now check 0 URLS prev [] [] []))) u =
  match occurrences u 0 URLS with
  | [] => None
  | js => Some (match dict_get prev u with
                | Some e => fold_left (step_at cfg now check u) js e
                | None => step_at cfg now check u empty_entry (last js 0%nat)
                end)
  end.
Proof.
  split; [apply run_loop_nodup; constructor|].
  rewrite run_loop_occurrences. reflexivity.
Qed.

Lemma step_ok_up cfg u e msg now :
  e_status e = Up -> step cfg u e true msg now = (set_fail (set_ok e (e_ok e + 1)) 0, None).
Proof. intros Hs; unfold step; simpl; rewrite Hs; reflexivity. Qed.

Lemma dict_set_in d u e' k e :
  In (k, e) (dict_set d u e') -> (k, e) = (u, e') \/ In (k, e) d.
Proof.
  induction d as [|[k0 e0] d IH]; simpl; [intros [H|[]]; left; congruence|].
  destruct (String.eqb u k0) eqn:E; simpl.
  - apply String.eqb_eq in E; subst k0. intros [H|H]; [left; congruence | tauto].
  - intros [H|H]; [tauto|]. destruct (IH H); tauto.
Qed.

Lemma dict_get_set_cases d u e' k e :
  dict_get (dict_set d u e') k = Some e -> (k = u /\ e = e') \/ dict_get d k = Some e.
Proof.
  destruct (string_dec u k) as [<-|Hne].
  - rewrite dict_get_set_eq; intros H; injection H as <-; left; tauto.
  - rewrite dict_get_set_neq by exact Hne; right; exact H.
Qed.

Lemma run_loop_quiet cfg now check : forall us i prev curr,
  (forall j v, fst (check j v) = true) ->
  (forall k e, dict_get prev k = Some e -> e_status e = Up) ->
  (forall k e, In (k, e) curr -> e_status e = Up) ->
  snd (fst (run_loop cfg now check i us prev curr [] [])) = [] /\
  snd (run_loop cfg now check i us prev curr [] []) = [] /\
  (forall k e, In (k, e) (fst (fst (run_loop cfg now check i us prev curr [] []))) ->
   e_status e = Up).
Proof.
  induction us as [|u us IH]; intros i prev curr Hok Hp Hc; [simpl; auto|].
  cbn [run_loop]. specialize (Hok i u) as Hi.
  destruct (check i u) as [ok msg]; simpl in Hi; subst ok.
  destruct (dict_get prev u) as [e|] eqn:Hg.
  - rewrite (step_ok_up cfg u e msg now (Hp u e Hg)); cbv beta iota; cbn [add_down add_recovery].
    assert (Hu : e_status (set_fail (set_ok e (e_ok e + 1)) 0) = Up)
      by (simpl; exact (Hp u e Hg)).
    apply IH; [exact Hok| |].
    + intros k e1 H; destruct (dict_get_set_cases _ _ _ _ _ H) as [[_ ->]|H']; eauto.
    + intros k e1 H; destruct (dict_set_in _ _ _ _ _ H) as [Heq|H']; [injection Heq as _ ->|]; eauto.
  - rewrite (step_ok_up cfg u empty_entry msg now eq_refl); cbv beta iota; cbn [add_down add_recovery].
    apply IH; [exact Hok | exact Hp|].
    intros k e1 H; destruct (dict_set_in _ _ _ _ _ H) as [Heq|H']; [injection Heq as _ ->|]; eauto.
Qed.

(** A run in which every probe succeeds, starting from a state in which no
    configured URL is DOWN, sends no notification and, with URLs
    configured, exits with status 0. *)
Theorem quiet_run (cfg : config) (URLS : list string) (loaded : json) (check : prober)
    (now : Z) (o : outcome) :
  main cfg URLS loaded check now = Finished o ->
  (forall i u, fst (check i u) = true) ->
  (forall u e, In u URLS -> loaded_entry loaded u = Some e -> e_status e = Up) ->
  sent o = [] /\ (URLS = [] \/ exit_code o = 0).
Proof.
  intros Hm Hok Hl. destruct URLS as [|u0 us].
  - injection Hm as <-; split; [reflexivity | left; reflexivity].
  - assert (Hne : u0 :: us <> []) by discriminate.
    destruct (main_finished cfg (u0 :: us) loaded check now o Hm Hne) as [prev [Hp Ho]].
    destruct loaded as [| | | | |kv]; try discriminate Hp.
    unfold prev_of_json in Hp. destruct (prev_entries kv (u0 :: us) []) as [m|] eqn:He;
      [|discriminate]. injection Hp as <-.
    assert (Hpu : forall k e, dict_get m k = Some e -> e_status e = Up).
    { intros k e Hg. rewrite (prev_entries_spec kv (u0 :: us) [] m He k) in Hg.
      destruct (existsb (String.eqb k) (u0 :: us)) eqn:Hk; [|discriminate].
      apply existsb_eqb_in in Hk. apply (Hl k e Hk). unfold loaded_entry.
      destruct (obj_get kv k); [exact Hg | discriminate]. }
    destruct (run_loop_quiet cfg now check (u0 :: us) 0 m [] Hok Hpu
                (fun k e (H : In (k, e) []) => match H with end)) as (Hd & Hr & Hc).
    destruct (run_loop cfg now check 0 (u0 :: us) m [] [] []) as [[curr downs] recs].
    simpl in Hd, Hr, Hc; subst o downs recs. split; [reflexivity | right; simpl].
    destruct (any_down curr) eqn:Ha; [|reflexivity].
    apply any_down_iff in Ha as (k & e & Hi & Hs). rewrite (Hc k e Hi) in Hs; discriminate.
Qed.

Lemma quiet_run_witness :
  main (mk_config 3 10) ["http://a"] (JObj []) all_ok 60 =
    Finished {| probed := ["http://a"]; sent := [];
                saved := Some [("http://a", set_fail (set_ok empty_entry 1) 0)];
                exit_code := 0 |} /\
  (forall i u, fst (all_ok i u) = true) /\
  (forall u e, In u ["http://a"] -> loaded_entry (JObj []) u = Some e -> e_status e = Up) /\
  (sent {| probed := ["http://a"]; sent := [];
           saved := Some [("http://a", set_fail (set_ok empty_entry 1) 0)];
           exit_code := 0 |} = [] /\
   (["http://a"] = [] \/
    exit_code {| probed := ["http://a"]; sent := [];
                 saved := Some [("http://a", set_fail (set_ok empty_entry 1) 0)];
                 exit_code := 0 |} = 0)).
Proof.
  assert (Hm : main (mk_config 3 10) ["http://a"] (JObj []) all_ok 60 =
    Finished {| probed := ["http://a"]; sent := [];
                saved := Some [("http://a", set_fail (set_ok empty_entry 1) 0)];
                exit_code := 0 |}) by reflexivity.
  assert (Hok : forall i u, fst (all_ok i u) = true) by reflexivity.
  assert (Hl : forall u e, In u ["http://a"] -> loaded_entry (JObj []) u = Some e ->
                           e_status e = Up) by (intros u e _ H; discriminate H).
  split; [exact Hm|]. split; [exact Hok|]. split; [exact Hl|].
  exact (quiet_run _ _ _ _ _ _ Hm Hok Hl).
Defined.

Lemma add_down_texts downs a : add_down downs a = (downs ++ down_texts [a])%list.
Proof. destruct a as [[t|t|t]|]; simpl; rewrite ?app_nil_r; reflexivity. Qed.

Lemma add_recovery_texts recs a : add_recovery recs a = (recs ++ recovery_texts [a])%list.
Proof. destruct a as [[t|t|t]|]; simpl; rewrite ?app_nil_r; reflexivity. Qed.

Lemma texts_cons a al :
  down_texts (a :: al) = (down_texts [a] ++ down_texts al)%list /\
  recovery_texts (a :: al) = (recovery_texts [a] ++ recovery_texts al)%list.
Proof. destruct a as [[t|t|t]|]; split; reflexivity. Qed.

Lemma run_loop_alerts cfg now check p0 : forall us i prev curr downs recs,
  NoDup us -> (forall v, In v us -> dict_get prev v = dict_get p0 v) ->
  snd (fst (run_loop cfg now check i us prev curr downs recs)) =
    (downs ++ down_texts (alerts_of_distinct cfg now check i us p0))%list /\
  snd (run_loop cfg now check i us prev curr downs recs) =
    (recs ++ recovery_texts (alerts_of_distinct cfg now check i us p0))%list.
Proof.
  induction us as [|u us IH]; intros i prev curr downs recs Hnd Hp;
    [simpl; rewrite !app_nil_r; split; reflexivity|].
  inversion Hnd as [|? ? Hu Hnd']; subst.
  cbn [run_loop alerts_of_distinct].
  destruct (texts_cons (snd (step cfg u (base p0 u) (fst (check i u)) (snd (check i u)) now))
              (alerts_of_distinct cfg now check (S i) us p0)) as [Td Tr].
  rewrite Td, Tr.
  assert (Hb : base p0 u = match dict_get prev u with Some e => e | None => empty_entry end)
    by (unfold base; rewrite (Hp u (or_introl eq_refl)); reflexivity).
  rewrite Hb. destruct (check i u) as [ok msg]; cbn [fst snd].
  destruct (dict_get prev u) as [e|].
  - destruct (step cfg u e ok msg now) as [e1 a]; cbv beta iota; cbn [snd].
    destruct (IH (S i) (dict_set prev u e1) (dict_set curr u e1) (add_down downs a)
                (add_recovery recs a) Hnd') as [H1 H2].
    { intros v Hv. rewrite dict_get_set_neq by (intros ->; contradiction).
      apply Hp; right; exact Hv. }
    rewrite H1, H2, add_down_texts, add_recovery_texts, <- !app_assoc; split; reflexivity.
  - destruct (step cfg u empty_entry ok msg now) as [e1 a]; cbv beta iota; cbn [snd].
    destruct (IH (S i) prev (dict_set curr u e1) (add_down downs a)
                (add_recovery recs a) Hnd') as [H1 H2].
    { intros v Hv; apply Hp; right; exact Hv. }
    rewrite H1, H2, add_down_texts, add_recovery_texts, <- !app_assoc; split; reflexivity.
Qed.

Lemma notifications_nil downs recs :
  notifications downs recs = [] <-> downs = [] /\ recs = [].
Proof.
  destruct downs, recs; simpl; split; intros H;
    first [split; reflexivity | discriminate H | destruct H; discriminate | reflexivity].
Qed.

Lemma texts_nil al :
  down_texts al = [] /\ recovery_texts al = [] <-> Forall (fun a => a = None) al.
Proof.
  induction al as [|a al IH]; [split; [constructor | split; reflexivity]|].
  rewrite Forall_cons_iff, <- IH.
  destruct a as [[t|t|t]|]; simpl; split; intros H;
    first [ destruct H as [H1 H2]; discriminate
          | split; [reflexivity | exact H]
          | exact (proj2 H) ].
Qed.

(** The notifications of a run over distinct URLs: the alert message lists
    the texts of the DOWN alerts and reminders the URLs' steps produce, in
    the order of [URLS], and the recovery message the recoveries; a run
    sends nothing exactly when no step produces an alert. *)
Theorem run_notifications (cfg : config) (URLS : list string) (loaded : json)
    (check : prober) (now : Z) (o : outcome) (prev : list (string * entry)) :
  main cfg URLS loaded check now = Finished o -> NoDup URLS ->
  prev_of_json URLS loaded = Prev prev ->
  sent o = notifications (down_texts (alerts_of_distinct cfg now check 0 URLS prev))
                         (recovery_texts (alerts_of_distinct cfg now check 0 URLS prev)) /\
  (sent o = [] <-> Forall (fun a => a = None) (alerts_of_distinct cfg now check 0 URLS prev)).
Proof.
  intros Hm Hnd Hp.
  assert (Hs : sent o = notifications (down_texts (alerts_of_distinct cfg now check 0 URLS prev))
                          (recovery_texts (alerts_of_distinct cfg now check 0 URLS prev))).
  { destruct URLS as [|u us]; [injection Hm as <-; reflexivity|].
    rewrite (main_of_prev cfg (u :: us) loaded check now prev ltac:(discriminate) Hp) in Hm.
    destruct (run_loop_alerts cfg now check prev (u :: us) 0 prev [] [] [] Hnd
                (fun v _ => eq_refl)) as [Hd Hr].
    destruct (run_loop cfg now check 0 (u :: us) prev [] [] []) as [[curr downs] recs].
    simpl in Hd, Hr; subst downs recs. injection Hm as <-. reflexivity. }
  split; [exact Hs|]. rewrite Hs, notifications_nil. apply texts_nil.
Qed.

(** A run that recovers "http://a", loaded DOWN, and finds "http://b" DOWN;
    the loaded state also holds a stale entry. *)
Lemma run_notifications_witness :
  main (mk_config 1 10) ["http://a"; "http://b"]
    (JObj [("http://old", entry_json {| e_status := Down; e_fail := 5; e_ok := 0;
                                         e_last_change := 10; e_last_down_alert := 10 |});
             ("http://a", entry_json {| e_status := Down; e_fail := 3; e_ok := 0;
                                       e_last_change := 40; e_last_down_alert := 40 |})])
    (fun _ u => if String.eqb u "http://a" then (true, "http://a OK (200)")
                 else (false, u ++ " returned 500")) 100 =
  Finished {| probed := ["http://a"; "http://b"];
        sent := [warning_sign ++ " Uptime alert:" ++ newline ++ join_lines ["http://b returned 500"];
                 check_mark ++ " Recovery:" ++ newline ++
                 join_lines ["http://a recovered " ++ check_mark]];
        saved := Some [("http://a", {| e_status := Up; e_fail := 0; e_ok := 1;
                                       e_last_change := 100; e_last_down_alert := 40 |});
                       ("http://b", {| e_status := Down; e_fail := 1; e_ok := 0;
                                       e_last_change := 100; e_last_down_alert := 100 |})];
        exit_code := 1 |} /\
  NoDup ["http://a"; "http://b"] /\
  prev_of_json ["http://a"; "http://b"]
    (JObj [("http://old", entry_json {| e_status := Down; e_fail := 5; e_ok := 0;
                                         e_last_change := 10; e_last_down_alert := 10 |});
             ("http://a", entry_json {| e_status := Down; e_fail := 3; e_ok := 0;
                                       e_last_change := 40; e_last_down_alert := 40 |})]) =
  Prev [("http://a", {| e_status := Down; e_fail := 3; e_ok := 0;
                       e_last_change := 40; e_last_down_alert := 40 |})] /\
  (sent {| probed := ["http://a"; "http://b"];
        sent := [warning_sign ++ " Uptime alert:" ++ newline ++ join_lines ["http://b returned 500"];
                 check_mark ++ " Recovery:" ++ newline ++
                 join_lines ["http://a recovered " ++ check_mark]];
        saved := Some [("http://a", {| e_status := Up; e_fail := 0; e_ok := 1;
                                       e_last_change := 100; e_last_down_alert := 40 |});
                       ("http://b", {| e_status := Down; e_fail := 1; e_ok := 0;
                                       e_last_change := 100; e_last_down_alert := 100 |})];
        exit_code := 1 |} = notifications (down_texts (alerts_of_distinct (mk_config 1 10) 100 (fun _ u => if String.eqb u "http://a" then (true, "http://a OK (200)")
                 else (false, u ++ " returned 500")) 0 ["http://a"; "http://b"] [("http://a", {| e_status := Down; e_fail := 3; e_ok := 0;
                       e_last_change := 40; e_last_down_alert := 40 |})])) (recovery_texts (alerts_of_distinct (mk_config 1 10) 100 (fun _ u => if String.eqb u "http://a" then (true, "http://a OK (200)")
                 else (false, u ++ " returned 500")) 0 ["http://a"; "http://b"] [("http://a", {| e_status := Down; e_fail := 3; e_ok := 0;
                       e_last_change := 40; e_last_down_alert := 40 |})])) /\
  (sent {| probed := ["http://a"; "http://b"];
        sent := [warning_sign ++ " Uptime alert:" ++ newline ++ join_lines ["http://b returned 500"];
                 check_mark ++ " Recovery:" ++ newline ++
                 join_lines ["http://a recovered " ++ check_mark]];
        saved := Some [("http://a", {| e_status := Up; e_fail := 0; e_ok := 1;
                                       e_last_change := 100; e_last_down_alert := 40 |});
                       ("http://b", {| e_status := Down; e_fail := 1; e_ok := 0;
                                       e_last_change := 100; e_last_down_alert := 100 |})];
        exit_code := 1 |} = [] <-> Forall (fun a => a = None) (alerts_of_distinct (mk_config 1 10) 100 (fun _ u => if String.eqb u "http://a" then (true, "http://a OK (200)")
                 else (false, u ++ " returned 500")) 0 ["http://a"; "http://b"] [("http://a", {| e_status := Down; e_fail := 3; e_ok := 0;
                       e_last_change := 40; e_last_down_alert := 40 |})]))).
Proof.
  assert (Hm : main (mk_config 1 10) ["http://a"; "http://b"]
    (JObj [("http://old", entry_json {| e_status := Down; e_fail := 5; e_ok := 0;
                                         e_last_change := 10; e_last_down_alert := 10 |});
             ("http://a", entry_json {| e_status := Down; e_fail := 3; e_ok := 0;
                                       e_last_change := 40; e_last_down_alert := 40 |})])
    (fun _ u => if String.eqb u "http://a" then (true, "http://a OK (200)")
                 else (false, u ++ " returned 500")) 100 =
  Finished {| probed := ["http://a"; "http://b"];
        sent := [warning_sign ++ " Uptime alert:" ++ newline ++ join_lines ["http://b returned 500"];
                 check_mark ++ " Recovery:" ++ newline ++
                 join_lines ["http://a recovered " ++ check_mark]];
        saved := Some [("http://a", {| e_status := Up; e_fail := 0; e_ok := 1;
                                       e_last_change := 100; e_last_down_alert := 40 |});
                       ("http://b", {| e_status := Down; e_fail := 1; e_ok := 0;
                                       e_last_change := 100; e_last_down_alert := 100 |})];
        exit_code := 1 |})
    by (vm_compute; reflexivity).
  assert (Hnd : NoDup ["http://a"; "http://b"])
    by (repeat constructor; simpl; intuition discriminate).
  assert (Hp : prev_of_json ["http://a"; "http://b"]
    (JObj [("http://old", entry_json {| e_status := Down; e_fail := 5; e_ok := 0;
                                         e_last_change := 10; e_last_down_alert := 10 |});
             ("http://a", entry_json {| e_status := Down; e_fail := 3; e_ok := 0;
                                       e_last_change := 40; e_last_down_alert := 40 |})]) =
  Prev [("http://a", {| e_status := Down; e_fail := 3; e_ok := 0;
                       e_last_change := 40; e_last_down_alert := 40 |})])
    by (vm_compute; reflexivity).
  split; [exact Hm|]. split; [exact Hnd|]. split; [exact Hp|].
  exact (run_notifications _ _ _ _ _ _ _ Hm Hnd Hp).
Defined.

Lemma check_url_msg_prefix EXPECT u r : exists rest, snd (check_url EXPECT u r) = u ++ rest.
Proof.
  destruct r as [code sr|err]; simpl; [|eexists; reflexivity].
  destruct (Z.leb 400 code); [eexists; reflexivity|].
  destruct (String.eqb EXPECT ""); [eexists; reflexivity|].
  destruct sr; eexists; reflexivity.
Qed.

Lemma string_app_assoc (s1 s2 s3 : string) : (s1 ++ s2) ++ s3 = s1 ++ (s2 ++ s3).
Proof. induction s1 as [|c s1 IH]; simpl; [reflexivity | rewrite IH; reflexivity]. Qed.

(** Every text the loop collects for a URL begins with that URL: a DOWN
    alert is [check_url]'s message, a reminder extends it, and a recovery
    is built from the URL. *)
Theorem alert_text_names_url (cfg : config) (EXPECT u : string) (r : http_outcome)
    (e : entry) (now : Z) :
  match snd (step cfg u e (fst (check_url EXPECT u r)) (snd (check_url EXPECT u r)) now) with
  | Some a => exists rest, alert_text a = u ++ rest
  | None => True
  end.
Proof.
  destruct (check_url_msg_prefix EXPECT u r) as [rest Hr].
  destruct (check_url EXPECT u r) as [ok msg]; simpl in Hr |- *; subst msg.
  destruct ok; step_cases e; try exact I; eexists; simpl;
    try reflexivity; apply string_app_assoc.
Qed.
